(** * The log processing engine of minisource/log

    A shallow embedding of the service layer ([LogService]) and of the
    repositories it drives ([LogRepository], [AlertRepository],
    [RetentionRepository]), followed by the properties of ingestion,
    buffering, cached queries, alert evaluation and retention cleanup.

    The database, the Redis client, the clocks, the UUID generator and the
    JSON codec are libraries outside the repository.  They appear here as
    an environment [Env] of oracles and as tables held in a [World]; every
    call that crosses that border is appended to the world's [calls]. *)

From Stdlib Require Import ZArith NArith Ascii Lia.
From stdpp Require Import gmap strings list sorting.

Open Scope Z_scope.

(** ** Base types *)

(** [uuid.UUID] is a 16-byte array; it is read here as the number those
    bytes spell.  [uuid.Nil] is the all-zero array. *)
Abbreviation UUID := N.
Definition uuid_Nil : UUID := 0%N.

(** [time.Time] as the count of nanoseconds elapsed since the zero Time
    (0001-01-01T00:00:00Z), so that [IsZero] is a test against 0.
    [time.Duration] is a signed 64-bit count of nanoseconds. *)
Abbreviation Time := Z.
Abbreviation Duration := Z.

Definition time_IsZero (t : Time) : bool := t =? 0.

Definition Second : Duration := 1000000000.
Definition Minute : Duration := 60 * Second.
Definition nsPerDay : Z := 86400 * Second.

Definition minInt64 : Z := - 2 ^ 63.
Definition maxInt64 : Z := 2 ^ 63 - 1.

(** Two's complement wrap-around of Go's [int] (64 bits). *)
Definition wrap64 (z : Z) : Z := (z + 2 ^ 63) mod 2 ^ 64 - 2 ^ 63.

(** [Time.Sub] saturates at the ends of the [Duration] range. *)
Definition time_Sub (t u : Time) : Duration :=
  Z.max minInt64 (Z.min maxInt64 (t - u)).

(** [Time.AddDate(0, 0, days)].  The service runs with the zone of its
    container, UTC, where a calendar day is always 24 hours long. *)
Definition time_AddDate_days (t : Time) (days : Z) : Time := t + days * nsPerDay.

(** [models.LogLevel] is a string type: any string can be carried. *)
Abbreviation LogLevel := string.
Definition LogLevelDebug : LogLevel := "DEBUG".
Definition LogLevelInfo  : LogLevel := "INFO".
Definition LogLevelWarn  : LogLevel := "WARN".
Definition LogLevelError : LogLevel := "ERROR".
Definition LogLevelFatal : LogLevel := "FATAL".

(** [json.RawMessage]: undecoded bytes. *)
Abbreviation RawMessage := string.

(** ** Structs of package models

    [CreatedAt] and [UpdatedAt], which the ORM fills in and no function
    of the service reads, are left out. *)

Record LogEntry := mkLogEntry {
  entry_ID          : UUID;
  entry_TenantID    : UUID;
  entry_ServiceName : string;
  entry_Level       : LogLevel;
  entry_Message     : string;
  entry_Timestamp   : Time;
  entry_TraceID     : string;
  entry_SpanID      : string;
  entry_UserID      : option UUID;
  entry_RequestID   : string;
  entry_Metadata    : RawMessage;
  entry_Source      : string;
  entry_Host        : string;
  entry_Environment : string
}.

Record LogFilter := mkLogFilter {
  filter_TenantID    : option UUID;
  filter_ServiceName : string;
  filter_Level       : LogLevel;
  filter_MinLevel    : LogLevel;
  filter_StartTime   : option Time;
  filter_EndTime     : option Time;
  filter_TraceID     : string;
  filter_UserID      : option UUID;
  filter_RequestID   : string;
  filter_Search      : string;
  filter_Environment : string;
  filter_Page        : Z;
  filter_PageSize    : Z
}.

Record LogRetention := mkLogRetention {
  retention_ID             : UUID;
  retention_TenantID       : UUID;
  retention_RetentionDays  : Z;
  retention_MaxSizeGB      : Z;
  retention_ArchiveEnabled : bool;
  retention_ArchivePath    : string
}.

Record LogAlert := mkLogAlert {
  alert_ID            : UUID;
  alert_TenantID      : UUID;
  alert_Name          : string;
  alert_Description   : string;
  alert_Enabled       : bool;
  alert_Filter        : RawMessage;
  alert_Threshold     : Z;
  alert_WindowMins    : Z;
  alert_Severity      : string;
  alert_Channels      : RawMessage;
  alert_LastTriggered : option Time
}.

Record LogQueryResult := mkLogQueryResult {
  result_Entries    : list LogEntry;
  result_TotalCount : Z;
  result_Page       : Z;
  result_PageSize   : Z;
  result_HasMore    : bool
}.

(** Setters for the fields the service assigns. *)
Definition set_entry_ID (id : UUID) (e : LogEntry) : LogEntry :=
  mkLogEntry id (entry_TenantID e) (entry_ServiceName e) (entry_Level e)
    (entry_Message e) (entry_Timestamp e) (entry_TraceID e) (entry_SpanID e)
    (entry_UserID e) (entry_RequestID e) (entry_Metadata e) (entry_Source e)
    (entry_Host e) (entry_Environment e).

Definition set_entry_Timestamp (t : Time) (e : LogEntry) : LogEntry :=
  mkLogEntry (entry_ID e) (entry_TenantID e) (entry_ServiceName e)
    (entry_Level e) (entry_Message e) t (entry_TraceID e) (entry_SpanID e)
    (entry_UserID e) (entry_RequestID e) (entry_Metadata e) (entry_Source e)
    (entry_Host e) (entry_Environment e).

Definition set_alert_LastTriggered (t : option Time) (a : LogAlert) : LogAlert :=
  mkLogAlert (alert_ID a) (alert_TenantID a) (alert_Name a)
    (alert_Description a) (alert_Enabled a) (alert_Filter a)
    (alert_Threshold a) (alert_WindowMins a) (alert_Severity a)
    (alert_Channels a) t.

(** ** Severity levels (log_repository.go) *)

Definition levels : list LogLevel :=
  [LogLevelDebug; LogLevelInfo; LogLevelWarn; LogLevelError; LogLevelFatal].

(** The loop of [getLevelsAtOrAbove]: [found] is the flag, the result is
    built by appending, which is what consing in front of the rest of the
    traversal yields. *)
Fixpoint levels_loop (level : LogLevel) (found : bool) (ls : list LogLevel)
  : list LogLevel :=
  match ls with
  | [] => []
  | l :: rest =>
      let found := if String.eqb l level then true else found in
      if found then l :: levels_loop level found rest
      else levels_loop level found rest
  end.

Definition getLevelsAtOrAbove (level : LogLevel) : list LogLevel :=
  levels_loop level false levels.

(** ** The world outside the service *)

(** Go's [error] values, as far as the service can tell them apart. *)
Inductive error :=
| ErrDB (code : nat)      (* an error reported by the ORM *)
| ErrRedisNil             (* redis.Nil: the key does not exist *)
| ErrRedis (code : nat)   (* any other error of the Redis client *)
| ErrJSON.                (* an error of encoding/json *)

(** A call that leaves the repository's code: a finisher of the ORM or a
    command of the Redis client, with the arguments that decide it. *)
Inductive Call :=
| CallCreate (entry : LogEntry)
| CallCreateInBatches (entries : list LogEntry) (batchSize : Z)
| CallCount (filter : LogFilter)
| CallFind (filter : LogFilter) (offset limit : Z)
| CallDelete (tenantID : option UUID) (before : Time)
| CallFindPolicies
| CallFindEnabled
| CallUpdateLastTriggered (id : UUID)
| CallRedisGet (key : string)
| CallRedisSet (key value : string) (ttl : Duration).

(** The lines the service prints with [fmt.Printf]. *)
Inductive Output :=
| OutFlushFailed (err : error)
| OutCleanupFailed (tenantID : UUID) (err : error)
| OutAlertTriggered (name message : string).

(** Goroutines started with [go]. *)
Inductive Task :=
| TaskCheckAlerts (entry : LogEntry)
| TaskCheckAlertsBatch (entries : list LogEntry)
| TaskFlushBuffer.

(** What the libraries answer.  [fault n] is the error, if any, of the
    [n]-th external call; [db_now n] is the value of SQL [NOW()] during
    that call; [clock n] is the [n]-th reading of [time.Now()];
    [uuid_New n] is the [n]-th identifier drawn from [uuid.New()]. *)
Record Env := mkEnv {
  fault    : nat -> option error;
  db_now   : nat -> Time;
  clock    : nat -> Time;
  uuid_New : nat -> UUID;
  json_Unmarshal_LogFilter      : RawMessage -> option LogFilter;
  json_Marshal_LogFilter        : LogFilter -> string;
  json_Marshal_LogQueryResult   : LogQueryResult -> option string;
  json_Unmarshal_LogQueryResult : string -> option LogQueryResult;
  strings_ToLower : string -> string;
  (* [sql_lower_like message pattern]: LOWER(message) LIKE pattern *)
  sql_lower_like  : string -> string -> bool
}.

(** The fields of [LogService] fixed at construction: whether a Redis
    client was given ([s.redis != nil]) and the default retention window
    ([s.config.Retention.RetentionDays]). *)
Record LogService := mkLogService {
  svc_redis         : bool;
  svc_RetentionDays : Z
}.

(** The mutable state: the three tables, the Redis keys with the TTL they
    were set with, the service's buffer, and the history kept for the
    proofs (printed lines, external calls, counters of the oracles read,
    goroutines started). *)
Record World := mkWorld {
  log_entries            : list LogEntry;
  log_alerts             : list LogAlert;
  log_retention_policies : list LogRetention;
  redis_data             : gmap string (string * Duration);
  buffer                 : list LogEntry;
  stdout                 : list Output;
  calls                  : list Call;
  clock_reads            : nat;
  uuid_draws             : nat;
  spawned                : list Task
}.

Definition set_log_entries (x : list LogEntry) (w : World) : World :=
  mkWorld x (log_alerts w) (log_retention_policies w) (redis_data w)
    (buffer w) (stdout w) (calls w) (clock_reads w) (uuid_draws w) (spawned w).
Definition set_log_alerts (x : list LogAlert) (w : World) : World :=
  mkWorld (log_entries w) x (log_retention_policies w) (redis_data w)
    (buffer w) (stdout w) (calls w) (clock_reads w) (uuid_draws w) (spawned w).
Definition set_redis_data (x : gmap string (string * Duration)) (w : World) : World :=
  mkWorld (log_entries w) (log_alerts w) (log_retention_policies w) x
    (buffer w) (stdout w) (calls w) (clock_reads w) (uuid_draws w) (spawned w).
Definition set_buffer (x : list LogEntry) (w : World) : World :=
  mkWorld (log_entries w) (log_alerts w) (log_retention_policies w)
    (redis_data w) x (stdout w) (calls w) (clock_reads w) (uuid_draws w)
    (spawned w).
Definition set_stdout (x : list Output) (w : World) : World :=
  mkWorld (log_entries w) (log_alerts w) (log_retention_policies w)
    (redis_data w) (buffer w) x (calls w) (clock_reads w) (uuid_draws w)
    (spawned w).
Definition set_calls (x : list Call) (w : World) : World :=
  mkWorld (log_entries w) (log_alerts w) (log_retention_policies w)
    (redis_data w) (buffer w) (stdout w) x (clock_reads w) (uuid_draws w)
    (spawned w).
Definition set_clock_reads (x : nat) (w : World) : World :=
  mkWorld (log_entries w) (log_alerts w) (log_retention_policies w)
    (redis_data w) (buffer w) (stdout w) (calls w) x (uuid_draws w)
    (spawned w).
Definition set_uuid_draws (x : nat) (w : World) : World :=
  mkWorld (log_entries w) (log_alerts w) (log_retention_policies w)
    (redis_data w) (buffer w) (stdout w) (calls w) (clock_reads w) x
    (spawned w).
Definition set_spawned (x : list Task) (w : World) : World :=
  mkWorld (log_entries w) (log_alerts w) (log_retention_policies w)
    (redis_data w) (buffer w) (stdout w) (calls w) (clock_reads w)
    (uuid_draws w) x.

(** ** A state monad over the world *)

Definition M (A : Type) : Type := World -> A * World.

Definition ret {A} (a : A) : M A := fun w => (a, w).

Definition bind {A B} (m : M A) (k : A -> M B) : M B :=
  fun w => let (a, w') := m w in k a w'.

Declare Scope go_scope.
Delimit Scope go_scope with go.
Notation "x <- m ;; k" := (bind m (fun x => k))
  (at level 100, m at next level, right associativity) : go_scope.
Notation "m ;; k" := (bind m (fun _ => k))
  (at level 100, right associativity) : go_scope.
Open Scope go_scope.

Definition get_world : M World := fun w => (w, w).
Definition modify (f : World -> World) : M unit := fun w => (tt, f w).

Definition printf (o : Output) : M unit :=
  modify (fun w => set_stdout (stdout w ++ [o]) w).

(** [go f()]: the goroutine is recorded, it runs when the scheduler picks it. *)
Definition go (t : Task) : M unit :=
  modify (fun w => set_spawned (spawned w ++ [t]) w).

(** Run [body] once per element, in order ([for _, x := range xs]). *)
Fixpoint for_range {A} (xs : list A) (body : A -> M unit) : M unit :=
  match xs with
  | [] => ret tt
  | x :: rest => body x ;; for_range rest body
  end.

(** ** Formatting helpers *)

Definition hex_digit (n : N) : ascii :=
  match n with
  | 0%N => "0" | 1%N => "1" | 2%N => "2" | 3%N => "3"
  | 4%N => "4" | 5%N => "5" | 6%N => "6" | 7%N => "7"
  | 8%N => "8" | 9%N => "9" | 10%N => "a" | 11%N => "b"
  | 12%N => "c" | 13%N => "d" | 14%N => "e" | _ => "f"
  end%char.

(** The verb [%x] applied to a byte slice: two lower-case digits per byte. *)
Fixpoint sprintf_x (data : string) : string :=
  match data with
  | EmptyString => EmptyString
  | String c rest =>
      let n := N_of_ascii c in
      String (hex_digit (n / 16)) (String (hex_digit (n mod 16)) (sprintf_x rest))
  end.

(** ** Rows and clauses *)

(** A query under construction is the list of its WHERE conditions; a row
    is selected when it passes all of them. *)
Abbreviation Clauses := (list (LogEntry -> bool)).

Definition Where (q : Clauses) (cond : LogEntry -> bool) : Clauses := q ++ [cond].

Definition selects (q : Clauses) (e : LogEntry) : bool :=
  forallb (fun cond => cond e) q.

(** [if guard { query = query.Where(cond) }] *)
Definition Where_if (guard : bool) (q : Clauses) (cond : LogEntry -> bool) : Clauses :=
  if guard then Where q cond else q.

(** [if ptr != nil { query = query.Where(cond, ptr) }] *)
Definition Where_ptr {A} (ptr : option A) (q : Clauses) (cond : A -> LogEntry -> bool)
  : Clauses :=
  match ptr with
  | Some v => Where q (cond v)
  | None => q
  end.

(** [s != ""] *)
Definition nonempty (s : string) : bool := negb (String.eqb s "").

(** Comparing a nullable column with a value: NULL is never equal. *)
Definition sql_eq_nullable (col : option UUID) (v : UUID) : bool :=
  match col with
  | Some c => N.eqb c v
  | None => false
  end.

(** [ORDER BY timestamp DESC], as an insertion sort.  SQL leaves the order
    of rows with equal timestamps open; the model fixes one. *)
Fixpoint insert_desc (e : LogEntry) (sorted : list LogEntry) : list LogEntry :=
  match sorted with
  | [] => [e]
  | x :: rest =>
      if entry_Timestamp x <? entry_Timestamp e then e :: x :: rest
      else x :: insert_desc e rest
  end.

Definition order_timestamp_desc (rows : list LogEntry) : list LogEntry :=
  fold_right insert_desc [] rows.

(** [Offset(n)]: the ORM emits OFFSET only for a positive [n]. *)
Definition sql_offset (n : Z) (rows : list LogEntry) : list LogEntry :=
  drop (Z.to_nat n) rows.

(** [Limit(n)] for the page sizes the repository passes (1 to 1000). *)
Definition sql_limit (n : Z) (rows : list LogEntry) : list LogEntry :=
  take (Z.to_nat n) rows.

Section Engine.

Variable env : Env.
Variable svc : LogService.

(** An external call: it is logged, and the environment decides whether it
    fails.  A failed statement leaves the tables as they were. *)
Definition external (c : Call) : M (option error) :=
  fun w => (fault env (length (calls w)), set_calls (calls w ++ [c]) w).

(** [time.Now()] *)
Definition time_Now : M Time :=
  fun w => (clock env (clock_reads w), set_clock_reads (S (clock_reads w)) w).

(** [time.Since(t)] *)
Definition time_Since (t : Time) : M Duration :=
  now <- time_Now ;; ret (time_Sub now t).

(** [uuid.New()] *)
Definition uuid_New_call : M UUID :=
  fun w => (uuid_New env (uuid_draws w), set_uuid_draws (S (uuid_draws w)) w).

(** *** LogRepository (log_repository.go) *)

Definition LogRepository_Create (entry : LogEntry) : M (option error) :=
  err <- external (CallCreate entry) ;;
  match err with
  | Some e => ret (Some e)
  | None =>
      modify (fun w => set_log_entries (log_entries w ++ [entry]) w) ;;
      ret None
  end.

Definition LogRepository_CreateBatch (entries : list LogEntry) : M (option error) :=
  if (length entries =? 0)%nat then ret None
  else
    err <- external (CallCreateInBatches entries 1000) ;;
    match err with
    | Some e => ret (Some e)
    | None =>
        modify (fun w => set_log_entries (log_entries w ++ entries) w) ;;
        ret None
    end.

Definition buildQuery (filter : LogFilter) : Clauses :=
  let query : Clauses := [] in
  let query := Where_ptr (filter_TenantID filter) query
    (fun t e => N.eqb (entry_TenantID e) t) in
  let query := Where_if (nonempty (filter_ServiceName filter)) query
    (fun e => String.eqb (entry_ServiceName e) (filter_ServiceName filter)) in
  let query := Where_if (nonempty (filter_Level filter)) query
    (fun e => String.eqb (entry_Level e) (filter_Level filter)) in
  let query := Where_if (nonempty (filter_MinLevel filter)) query
    (let levels := getLevelsAtOrAbove (filter_MinLevel filter) in
     fun e => existsb (String.eqb (entry_Level e)) levels) in
  let query := Where_ptr (filter_StartTime filter) query
    (fun t e => t <=? entry_Timestamp e) in
  let query := Where_ptr (filter_EndTime filter) query
    (fun t e => entry_Timestamp e <=? t) in
  let query := Where_if (nonempty (filter_TraceID filter)) query
    (fun e => String.eqb (entry_TraceID e) (filter_TraceID filter)) in
  let query := Where_ptr (filter_UserID filter) query
    (fun u e => sql_eq_nullable (entry_UserID e) u) in
  let query := Where_if (nonempty (filter_RequestID filter)) query
    (fun e => String.eqb (entry_RequestID e) (filter_RequestID filter)) in
  let query := Where_if (nonempty (filter_Environment filter)) query
    (fun e => String.eqb (entry_Environment e) (filter_Environment filter)) in
  let query := Where_if (nonempty (filter_Search filter)) query
    (let search := ("%" ++ strings_ToLower env (filter_Search filter) ++ "%")%string in
     fun e => sql_lower_like env (entry_Message e) search) in
  query.

Definition LogRepository_Query (filter : LogFilter)
  : M (list LogEntry * Z * option error) :=
  let query := buildQuery filter in
  err <- external (CallCount filter) ;;
  match err with
  | Some e => ret ([], 0, Some e)
  | None =>
      w <- get_world ;;
      let total := Z.of_nat (length (List.filter (selects query) (log_entries w))) in
      let page := filter_Page filter in
      let page := if page <? 1 then 1 else page in
      let pageSize := filter_PageSize filter in
      let pageSize := if (pageSize <? 1) || (1000 <? pageSize) then 100 else pageSize in
      let offset := wrap64 ((page - 1) * pageSize) in
      err <- external (CallFind filter offset pageSize) ;;
      match err with
      | Some e => ret ([], 0, Some e)
      | None =>
          w <- get_world ;;
          let rows := List.filter (selects query) (log_entries w) in
          let entries := sql_limit pageSize (sql_offset offset (order_timestamp_desc rows)) in
          ret (entries, total, None)
      end
  end.

(** The rows a [DeleteOlderThan] statement removes. *)
Definition older_than (tenantID : option UUID) (before : Time) : Clauses :=
  let query : Clauses := Where [] (fun e => entry_Timestamp e <? before) in
  let query := Where_ptr tenantID query (fun t e => N.eqb (entry_TenantID e) t) in
  query.

Definition LogRepository_DeleteOlderThan (tenantID : option UUID) (before : Time)
  : M (Z * option error) :=
  let query := older_than tenantID before in
  err <- external (CallDelete tenantID before) ;;
  match err with
  | Some e => ret (0, Some e)
  | None =>
      w <- get_world ;;
      let gone := List.filter (selects query) (log_entries w) in
      modify (set_log_entries
                (List.filter (fun e => negb (selects query e)) (log_entries w))) ;;
      ret (Z.of_nat (length gone), None)
  end.

(** *** AlertRepository and RetentionRepository *)

Definition AlertRepository_FindEnabled : M (list LogAlert * option error) :=
  err <- external CallFindEnabled ;;
  match err with
  | Some e => ret ([], Some e)
  | None => w <- get_world ;; ret (List.filter alert_Enabled (log_alerts w), None)
  end.

Definition AlertRepository_UpdateLastTriggered (id : UUID) : M (option error) :=
  w0 <- get_world ;;
  let now := db_now env (length (calls w0)) in
  err <- external (CallUpdateLastTriggered id) ;;
  match err with
  | Some e => ret (Some e)
  | None =>
      modify (fun w =>
        set_log_alerts
          (map (fun a => if N.eqb (alert_ID a) id
                         then set_alert_LastTriggered (Some now) a else a)
               (log_alerts w)) w) ;;
      ret None
  end.

Definition RetentionRepository_FindAll : M (list LogRetention * option error) :=
  err <- external CallFindPolicies ;;
  match err with
  | Some e => ret ([], Some e)
  | None => w <- get_world ;; ret (log_retention_policies w, None)
  end.

(** *** The Redis client *)

Definition redis_Get (key : string) : M (string * option error) :=
  err <- external (CallRedisGet key) ;;
  match err with
  | Some e => ret (EmptyString, Some e)
  | None =>
      w <- get_world ;;
      match redis_data w !! key with
      | Some (data, _) => ret (data, None)
      | None => ret (EmptyString, Some ErrRedisNil)
      end
  end.

Definition redis_Set (key value : string) (ttl : Duration) : M (option error) :=
  err <- external (CallRedisSet key value ttl) ;;
  match err with
  | Some e => ret (Some e)
  | None =>
      modify (fun w => set_redis_data (<[key := (value, ttl)]> (redis_data w)) w) ;;
      ret None
  end.

(** *** LogService *)

(** The defaults both ingestion paths and [BufferLog] set on an entry:
    a new identifier for [uuid.Nil], the reading [now ()] for a zero
    timestamp.  [now] is evaluated only when the timestamp is zero. *)
Definition set_ID_default (entry : LogEntry) : M LogEntry :=
  if N.eqb (entry_ID entry) uuid_Nil
  then id <- uuid_New_call ;; ret (set_entry_ID id entry)
  else ret entry.

Definition set_Timestamp_default (now : M Time) (entry : LogEntry) : M LogEntry :=
  if time_IsZero (entry_Timestamp entry)
  then t <- now ;; ret (set_entry_Timestamp t entry)
  else ret entry.

(** [matchesAlert] *)
Definition matchesAlert (entry : LogEntry) (alert : LogAlert) : bool :=
  match json_Unmarshal_LogFilter env (alert_Filter alert) with
  | None => false
  | Some filter =>
      if negb (String.eqb (filter_ServiceName filter) "")
         && negb (String.eqb (filter_ServiceName filter) (entry_ServiceName entry))
      then false
      else if negb (String.eqb (filter_Level filter) "")
              && negb (String.eqb (filter_Level filter) (entry_Level entry))
      then false
      else
        match filter_TenantID filter with
        | Some t => if negb (N.eqb t (entry_TenantID entry)) then false else true
        | None => true
        end
  end.

(** [triggerAlert].  The clock is read only when [LastTriggered] is set;
    the error of [UpdateLastTriggered] is dropped. *)
Definition triggerAlert (alert : LogAlert) (entry : LogEntry) : M unit :=
  limited <-
    match alert_LastTriggered alert with
    | Some last => since <- time_Since last ;; ret (since <? Minute)
    | None => ret false
    end ;;
  if (limited : bool) then ret tt
  else
    AlertRepository_UpdateLastTriggered (alert_ID alert) ;;
    printf (OutAlertTriggered (alert_Name alert) (entry_Message entry)).

(** The body of the loop of [checkAlerts] for one rule. *)
Definition checkAlerts_rule (entry : LogEntry) (alert : LogAlert) : M unit :=
  if matchesAlert entry alert then triggerAlert alert entry else ret tt.

(** [checkAlerts] *)
Definition checkAlerts (entry : LogEntry) : M unit :=
  r <- AlertRepository_FindEnabled ;;
  let '(alerts, err) := r in
  match err with
  | Some _ => ret tt
  | None => for_range alerts (checkAlerts_rule entry)
  end.

(** [IngestSingle].  The entry is updated in place, so the caller sees the
    defaults; the model returns it next to the error. *)
Definition IngestSingle (entry : LogEntry) : M (LogEntry * option error) :=
  entry <- set_ID_default entry ;;
  entry <- set_Timestamp_default time_Now entry ;;
  go (TaskCheckAlerts entry) ;;
  err <- LogRepository_Create entry ;;
  ret (entry, err).

(** The loop of [IngestBatch] over the indices of [entries]. *)
Fixpoint batch_defaults (now : Time) (entries : list LogEntry) : M (list LogEntry) :=
  match entries with
  | [] => ret []
  | entry :: rest =>
      entry <- set_ID_default entry ;;
      entry <- set_Timestamp_default (ret now) entry ;;
      rest <- batch_defaults now rest ;;
      ret (entry :: rest)
  end.

(** [IngestBatch] *)
Definition IngestBatch (entries : list LogEntry) : M (list LogEntry * option error) :=
  now <- time_Now ;;
  entries <- batch_defaults now entries ;;
  go (TaskCheckAlertsBatch entries) ;;
  err <- LogRepository_CreateBatch entries ;;
  ret (entries, err).

(** [flushBuffer].  The first three lines run under [bufferMu]. *)
Definition flushBuffer : M unit :=
  w <- get_world ;;
  if (length (buffer w) =? 0)%nat then ret tt
  else
    let entries := buffer w in
    modify (set_buffer []) ;;
    err <- LogRepository_CreateBatch entries ;;
    match err with
    | Some e => printf (OutFlushFailed e)
    | None => ret tt
    end.

(** [BufferLog] *)
Definition BufferLog (entry : LogEntry) : M unit :=
  entry <- set_ID_default entry ;;
  entry <- set_Timestamp_default time_Now entry ;;
  modify (fun w => set_buffer (buffer w ++ [entry]) w) ;;
  w <- get_world ;;
  let shouldFlush := (1000 <=? length (buffer w))%nat in
  if shouldFlush then go TaskFlushBuffer else ret tt.

(** [Close]: the ticker is stopped, the buffer is drained. *)
Definition Close : M unit := flushBuffer.

(** Cache helpers. *)
Definition buildCacheKey (filter : LogFilter) : string :=
  let data := json_Marshal_LogFilter env filter in
  ("log_query:" ++ sprintf_x data)%string.

Definition getCachedResult (key : string) : M (option LogQueryResult * option error) :=
  if negb (svc_redis svc) then ret (None, None)
  else
    r <- redis_Get key ;;
    let '(data, err) := r in
    match err with
    | Some e => ret (None, Some e)
    | None =>
        match json_Unmarshal_LogQueryResult env data with
        | None => ret (None, Some ErrJSON)
        | Some result => ret (Some result, None)
        end
    end.

Definition cacheResult (key : string) (result : LogQueryResult) (ttl : Duration) : M unit :=
  if negb (svc_redis svc) then ret tt
  else
    match json_Marshal_LogQueryResult env result with
    | None => ret tt
    | Some data => redis_Set key data ttl ;; ret tt
    end.

(** [Query] *)
Definition Query (filter : LogFilter) : M (option LogQueryResult * option error) :=
  let cacheKey := buildCacheKey filter in
  r <- getCachedResult cacheKey ;;
  match r with
  | (Some cached, None) => ret (Some cached, None)
  | _ =>
      r <- LogRepository_Query filter ;;
      let '(entries, total, err) := r in
      match err with
      | Some e => ret (None, Some e)
      | None =>
          let result :=
            mkLogQueryResult entries total (filter_Page filter)
              (filter_PageSize filter) false in
          cacheResult cacheKey result (30 * Second) ;;
          ret (Some result, None)
      end
  end.

(** The body of the loop of [Cleanup] for one policy. *)
Definition cleanup_policy (policy : LogRetention) : M unit :=
  now <- time_Now ;;
  let cutoff := time_AddDate_days now (wrap64 (- retention_RetentionDays policy)) in
  r <- LogRepository_DeleteOlderThan (Some (retention_TenantID policy)) cutoff ;;
  match snd r with
  | Some e => printf (OutCleanupFailed (retention_TenantID policy) e)
  | None => ret tt
  end.

(** The last two statements of [Cleanup]: the default retention pass. *)
Definition cleanup_default : M (option error) :=
  now <- time_Now ;;
  let defaultCutoff := time_AddDate_days now (wrap64 (- svc_RetentionDays svc)) in
  r <- LogRepository_DeleteOlderThan None defaultCutoff ;;
  ret (snd r).

(** [Cleanup] *)
Definition Cleanup : M (option error) :=
  r <- RetentionRepository_FindAll ;;
  let '(policies, err) := r in
  match err with
  | Some e => ret (Some e)
  | None =>
      for_range policies cleanup_policy ;;
      cleanup_default
  end.

(** What a started goroutine does when it runs. *)
Definition run_task (t : Task) : M unit :=
  match t with
  | TaskCheckAlerts entry => checkAlerts entry
  | TaskCheckAlertsBatch entries =>
      for_range entries (fun entry =>
        if String.eqb (entry_Level entry) LogLevelError
           || String.eqb (entry_Level entry) LogLevelFatal
        then checkAlerts entry else ret tt)
  | TaskFlushBuffer => flushBuffer
  end.

End Engine.

(** ** Pure readings of the ingestion loop, used to state its result *)

(** [no_ID entry]: the entry arrived without an identifier. *)
Definition no_ID (entry : LogEntry) : bool := N.eqb (entry_ID entry) uuid_Nil.

(** How many of [entries] arrived without an identifier. *)
Definition count_no_ID (entries : list LogEntry) : nat :=
  length (List.filter no_ID entries).

(** The entries [batch_defaults] returns when [k] identifiers were drawn
    before the loop starts. *)
Fixpoint batch_defaults_result (env : Env) (now : Time) (k : nat)
    (entries : list LogEntry) : list LogEntry :=
  match entries with
  | [] => []
  | entry :: rest =>
      let entry1 := if no_ID entry then set_entry_ID (uuid_New env k) entry else entry in
      let entry2 := if time_IsZero (entry_Timestamp entry1)
                    then set_entry_Timestamp now entry1 else entry1 in
      entry2 :: batch_defaults_result env now (if no_ID entry then S k else k) rest
  end.

(** ** Names for the two halves of [Query] *)

(** The cache read [Query] starts with, and the store query it falls
    through to, run from the world the cache read leaves. *)
Definition cache_read (env : Env) (svc : LogService) (filter : LogFilter)
  : M (option LogQueryResult * option error) :=
  getCachedResult env svc (buildCacheKey env filter).

Definition store_read (env : Env) (svc : LogService) (filter : LogFilter)
  : M (list LogEntry * Z * option error) :=
  fun w => LogRepository_Query env filter (snd (cache_read env svc filter w)).

(** The result [Query] builds from the rows and the count of the store. *)
Definition result_of (filter : LogFilter) (entries : list LogEntry) (total : Z)
  : LogQueryResult :=
  mkLogQueryResult entries total (filter_Page filter) (filter_PageSize filter) false.

(** ** Names for what the ingestion paths hand back *)

(** The entry as [IngestSingle] leaves it, and the entries as [IngestBatch]
    leaves them. *)
Definition ingested (env : Env) (entry : LogEntry) (w : World) : LogEntry :=
  fst (fst (IngestSingle env entry w)).

Definition ingested_batch (env : Env) (entries : list LogEntry) (w : World)
  : list LogEntry :=
  fst (fst (IngestBatch env entries w)).

(** ** Names used to state further properties *)

(** An entry after the defaults, when [id] is the identifier drawn and
    [now] the clock reading taken. *)
Definition defaulted (id : UUID) (now : Time) (entry : LogEntry) : LogEntry :=
  let e1 := if no_ID entry then set_entry_ID id entry else entry in
  if time_IsZero (entry_Timestamp e1) then set_entry_Timestamp now e1 else e1.

(** [BufferLog] called once per entry, in order. *)
Definition BufferLog_each (env : Env) (entries : list LogEntry) : M unit :=
  for_range entries (BufferLog env).

(** The test of the goroutine of [IngestBatch]. *)
Definition is_error_or_fatal (entry : LogEntry) : bool :=
  String.eqb (entry_Level entry) LogLevelError
  || String.eqb (entry_Level entry) LogLevelFatal.

(** The page and page size [LogRepository.Query] works with. *)
Definition effective_page (filter : LogFilter) : Z :=
  if filter_Page filter <? 1 then 1 else filter_Page filter.

Definition effective_pageSize (filter : LogFilter) : Z :=
  if (filter_PageSize filter <? 1) || (1000 <? filter_PageSize filter)
  then 100 else filter_PageSize filter.

(** Newest first. *)
Definition newer_or_equal (a b : LogEntry) : Prop :=
  entry_Timestamp b <= entry_Timestamp a.

(** The value of a hexadecimal digit, to read [sprintf_x] back. *)
Definition hex_value (c : ascii) : N :=
  let n := N_of_ascii c in
  if (48 <=? n)%N && (n <=? 57)%N then n - 48
  else if (97 <=? n)%N && (n <=? 102)%N then n - 87
  else 0%N.

(** The bytes a string of hexadecimal digit pairs spells. *)
Fixpoint unhex (s : string) : string :=
  match s with
  | String hi (String lo rest) =>
      String (ascii_of_N (16 * hex_value hi + hex_value lo)) (unhex rest)
  | _ => EmptyString
  end.

(** The delete [Cleanup] issues for the [i]-th policy, when [k] clock
    readings were taken before the loop. *)
Definition policy_delete (env : Env) (k : nat) (i : nat) (policy : LogRetention) : Call :=
  CallDelete (Some (retention_TenantID policy))
    (time_AddDate_days (clock env (k + i)) (wrap64 (- retention_RetentionDays policy))).

(** ** Handlers and middleware (log_handler.go, middleware.go)

    A request reaches a handler as the outcome of [c.BodyParser] (an error,
    or the decoded body) and the value the middleware left under
    [c.Locals("tenant_id")]; the handler answers with a status and a JSON
    payload. *)

Inductive Response :=
| JSON_ErrorResponse (status : Z) (Error : string) (Message : error)
| JSON_LogEntry (status : Z) (entry : LogEntry)
| JSON_count (status : Z) (count : Z)
| JSON_LogQueryResult (status : Z) (result : option LogQueryResult).

Definition StatusOK : Z := 200.
Definition StatusCreated : Z := 201.
Definition StatusBadRequest : Z := 400.
Definition StatusInternalServerError : Z := 500.

Definition set_entry_TenantID (tid : UUID) (e : LogEntry) : LogEntry :=
  mkLogEntry (entry_ID e) tid (entry_ServiceName e) (entry_Level e)
    (entry_Message e) (entry_Timestamp e) (entry_TraceID e) (entry_SpanID e)
    (entry_UserID e) (entry_RequestID e) (entry_Metadata e) (entry_Source e)
    (entry_Host e) (entry_Environment e).

Definition set_filter_TenantID (tid : option UUID) (f : LogFilter) : LogFilter :=
  mkLogFilter tid (filter_ServiceName f) (filter_Level f) (filter_MinLevel f)
    (filter_StartTime f) (filter_EndTime f) (filter_TraceID f) (filter_UserID f)
    (filter_RequestID f) (filter_Search f) (filter_Environment f)
    (filter_Page f) (filter_PageSize f).

(** [middleware.TenantExtractor]: the header [X-Tenant-ID] becomes the
    local [tenant_id] only when it is not empty and [uuid.Parse] accepts
    it; [uuid_Parse] is that library function. *)
Definition TenantExtractor (uuid_Parse : string -> option UUID) (header : string)
  : option UUID :=
  if nonempty header then uuid_Parse header else None.

(** The loop of [LogHandler.IngestBatch] over the entries of the batch. *)
Definition batch_tenant (tid : UUID) (entries : list LogEntry) : list LogEntry :=
  map (fun e => if N.eqb (entry_TenantID e) uuid_Nil
                then set_entry_TenantID tid e else e) entries.

Section Handlers.

Variable env : Env.
Variable svc : LogService.

(** [LogHandler.IngestSingle] *)
Definition LogHandler_IngestSingle (body : error + LogEntry) (tenant_id : option UUID)
  : M Response :=
  match body with
  | inl err => ret (JSON_ErrorResponse StatusBadRequest "invalid_request" err)
  | inr entry =>
      let entry :=
        match tenant_id with
        | Some tid => set_entry_TenantID tid entry
        | None => entry
        end in
      r <- IngestSingle env entry ;;
      let '(entry, err) := r in
      match err with
      | Some e => ret (JSON_ErrorResponse StatusInternalServerError "ingestion_failed" e)
      | None => ret (JSON_LogEntry StatusCreated entry)
      end
  end.

(** [LogHandler.IngestBatch] *)
Definition LogHandler_IngestBatch (body : error + list LogEntry)
    (tenant_id : option UUID) : M Response :=
  match body with
  | inl err => ret (JSON_ErrorResponse StatusBadRequest "invalid_request" err)
  | inr entries =>
      let entries :=
        match tenant_id with
        | Some tid => batch_tenant tid entries
        | None => entries
        end in
      r <- IngestBatch env entries ;;
      let '(entries, err) := r in
      match err with
      | Some e => ret (JSON_ErrorResponse StatusInternalServerError "ingestion_failed" e)
      | None => ret (JSON_count StatusCreated (Z.of_nat (length entries)))
      end
  end.

(** [LogHandler.Query] *)
Definition LogHandler_Query (body : error + LogFilter) (tenant_id : option UUID)
  : M Response :=
  match body with
  | inl err => ret (JSON_ErrorResponse StatusBadRequest "invalid_request" err)
  | inr filter =>
      let filter :=
        match tenant_id with
        | Some tid => set_filter_TenantID (Some tid) filter
        | None => filter
        end in
      r <- Query env svc filter ;;
      let '(result, err) := r in
      match err with
      | Some e => ret (JSON_ErrorResponse StatusInternalServerError "query_failed" e)
      | None => ret (JSON_LogQueryResult StatusOK result)
      end
  end.

End Handlers.

(** ** The read-only methods of LogRepository (log_repository.go)

    These methods only read the table.  Each takes the outcome of every
    statement it issues as an argument: [None] when the statement succeeds,
    the error when it fails. *)

(** [ORDER BY timestamp ASC], as an insertion sort. *)
Fixpoint insert_asc (e : LogEntry) (sorted : list LogEntry) : list LogEntry :=
  match sorted with
  | [] => [e]
  | x :: rest =>
      if entry_Timestamp e <? entry_Timestamp x then e :: x :: rest
      else x :: insert_asc e rest
  end.

Definition order_timestamp_asc (rows : list LogEntry) : list LogEntry :=
  fold_right insert_asc [] rows.

(** Oldest first. *)
Definition older_or_equal (a b : LogEntry) : Prop :=
  entry_Timestamp a <= entry_Timestamp b.

(** [GetByTraceID] *)
Definition LogRepository_GetByTraceID (find : option error) (traceID : string)
    (log_entries : list LogEntry) : list LogEntry * option error :=
  match find with
  | Some e => ([], Some e)
  | None =>
      (order_timestamp_asc
         (List.filter (fun e => String.eqb (entry_TraceID e) traceID) log_entries),
       None)
  end.

(** [GetByRequestID] *)
Definition LogRepository_GetByRequestID (find : option error) (requestID : string)
    (log_entries : list LogEntry) : list LogEntry * option error :=
  match find with
  | Some e => ([], Some e)
  | None =>
      (order_timestamp_asc
         (List.filter (fun e => String.eqb (entry_RequestID e) requestID) log_entries),
       None)
  end.

(** The rows of a tenant, or all rows when no tenant is given
    ([if tenantID != nil { query = query.Where("tenant_id = ?", tenantID) }]). *)
Definition of_tenant (tenantID : option UUID) (rows : list LogEntry) : list LogEntry :=
  match tenantID with
  | Some t => List.filter (fun e => N.eqb (entry_TenantID e) t) rows
  | None => rows
  end.

(** [GetServices]: the distinct service names, in the order of their last
    occurrence; SQL leaves the order open. *)
Definition LogRepository_GetServices (pluck : option error) (tenantID : option UUID)
    (log_entries : list LogEntry) : list string * option error :=
  match pluck with
  | Some e => ([], Some e)
  | None => (remove_dups (map entry_ServiceName (of_tenant tenantID log_entries)), None)
  end.

(** [GetStorageSize].  [relation_size] is what
    [pg_total_relation_size('log_entries')] answers.  With a tenant the
    errors of the three statements are dropped: a failed [Count] leaves its
    counter at 0 and a failed [Scan] leaves [size] at 0. *)
Definition LogRepository_GetStorageSize (relation_size : Z)
    (count_all count_tenant scan : option error) (tenantID : option UUID)
    (log_entries : list LogEntry) : Z * option error :=
  let size := 0 in
  match tenantID with
  | Some t =>
      let total :=
        match count_all with
        | Some _ => 0
        | None => Z.of_nat (length log_entries)
        end in
      let tenantTotal :=
        match count_tenant with
        | Some _ => 0
        | None => Z.of_nat (length (of_tenant (Some t) log_entries))
        end in
      if 0 <? total then
        let size := match scan with Some _ => size | None => relation_size end in
        let size := Z.quot (wrap64 (size * tenantTotal)) total in
        (size, None)
      else (size, None)
  | None =>
      match scan with
      | Some e => (size, Some e)
      | None => (relation_size, None)
      end
  end.

(** [models.TimeRange] and [models.LogStats] *)
Record TimeRange := mkTimeRange {
  range_Start : Time;
  range_End   : Time
}.

Record LogStats := mkLogStats {
  stats_TotalCount    : Z;
  stats_LevelCounts   : gmap string Z;
  stats_ServiceCounts : gmap string Z;
  stats_TimeRange     : TimeRange
}.

(** The grouped count of [GetStats] (select the key and the number of rows,
    group by the key): one row per distinct key. *)
Definition group_count (key : LogEntry -> string) (rows : list LogEntry)
  : list (string * Z) :=
  map (fun k => (k, Z.of_nat (length (List.filter (fun e => String.eqb (key e) k) rows))))
    (remove_dups (map key rows)).

(** [for _, r := range results { counts[r.Key] = r.Count }] on an empty map. *)
Definition counts_of (results : list (string * Z)) : gmap string Z :=
  fold_left (fun m r => <[fst r := snd r]> m) results ∅.

(** [timestamp >= ? AND timestamp <= ?] *)
Definition in_range (startTime endTime : Time) (rows : list LogEntry) : list LogEntry :=
  List.filter (fun e => (startTime <=? entry_Timestamp e)
                        && (entry_Timestamp e <=? endTime)) rows.

(** [GetStats].  The three statements are issued without a look at their
    errors, and the method returns no error; a failed statement leaves its
    part of the statistics empty.  Only the total is restricted to the
    tenant. *)
Definition LogRepository_GetStats (count by_level by_service : option error)
    (tenantID : option UUID) (startTime endTime : Time)
    (log_entries : list LogEntry) : LogStats * option error :=
  let TotalCount :=
    match count with
    | Some _ => 0
    | None => Z.of_nat (length (of_tenant tenantID (in_range startTime endTime log_entries)))
    end in
  let levelResults :=
    match by_level with
    | Some _ => []
    | None => group_count entry_Level (in_range startTime endTime log_entries)
    end in
  let serviceResults :=
    match by_service with
    | Some _ => []
    | None => group_count entry_ServiceName (in_range startTime endTime log_entries)
    end in
  (mkLogStats TotalCount (counts_of levelResults) (counts_of serviceResults)
     (mkTimeRange startTime endTime), None).

(** ** A sample environment

    Concrete answers of the libraries, used to run the service on explicit
    inputs.  Each oracle agrees with the library it stands for on the
    inputs it is given below. *)

Module Sample.

(** The double quote character, and a quoted JSON string. *)
Definition dq : string := String (ascii_of_nat 34) EmptyString.
Definition quoted (s : string) : string := (dq ++ s ++ dq)%string.

(** 2024-01-01T00:00:00Z *)
Definition t0 : Time := 63839664000 * Second.
Definition day : Duration := nsPerDay.

Definition zero_filter : LogFilter :=
  mkLogFilter None "" "" "" None None "" None "" "" "" 0 0.

(** The text [{"service_name":"api","search":"timeout"}]. *)
Definition api_filter_json : RawMessage :=
  ("{" ++ quoted "service_name" ++ ":" ++ quoted "api" ++ ","
       ++ quoted "search" ++ ":" ++ quoted "timeout" ++ "}")%string.

Definition api_filter : LogFilter :=
  mkLogFilter None "api" "" "" None None "" None "" "timeout" "" 0 0.

(** [json.Unmarshal] into a [LogFilter] on the three texts used below:
    the empty object leaves the zero filter, the object above sets two
    fields, and a lone opening brace is a syntax error. *)
Definition unmarshal_filter (raw : RawMessage) : option LogFilter :=
  if String.eqb raw "{}" then Some zero_filter
  else if String.eqb raw api_filter_json then Some api_filter
  else None.

(** [json.Marshal] of a filter: every field is [omitempty], so the zero
    filter is the empty object.  The sample runs query with no other
    filter. *)
Definition marshal_filter (f : LogFilter) : string := "{}".

Definition empty_result : LogQueryResult := mkLogQueryResult [] 0 0 0 false.

(** The text [{"entries":[],"total_count":0,"page":0,"page_size":0,"has_more":false}]. *)
Definition empty_result_json : string :=
  ("{" ++ quoted "entries" ++ ":[]," ++ quoted "total_count" ++ ":0,"
       ++ quoted "page" ++ ":0," ++ quoted "page_size" ++ ":0,"
       ++ quoted "has_more" ++ ":false}")%string.

(** [json.Marshal] and [json.Unmarshal] of a result, on the empty result,
    the only one the sample runs put into the cache. *)
Definition marshal_result (r : LogQueryResult) : option string :=
  match result_Entries r with
  | [] => Some empty_result_json
  | _ => None
  end.

Definition unmarshal_result (data : string) : option LogQueryResult :=
  if String.eqb data empty_result_json then Some empty_result else None.

(** Lower-casing and LIKE on ASCII text without escapes. *)
Definition lower_ascii (c : ascii) : ascii :=
  let n := N_of_ascii c in
  if (65 <=? n)%N && (n <=? 90)%N then ascii_of_N (n + 32) else c.

Fixpoint lower (s : string) : string :=
  match s with
  | EmptyString => EmptyString
  | String c rest => String (lower_ascii c) (lower rest)
  end.

Fixpoint like (pattern : string) : string -> bool :=
  match pattern with
  | EmptyString => fun s => match s with EmptyString => true | _ => false end
  | String c rest =>
      if Ascii.eqb c "%" then
        fix any (s : string) : bool :=
          like rest s
          || match s with EmptyString => false | String _ s' => any s' end
      else if Ascii.eqb c "_" then
        fun s => match s with EmptyString => false | String _ s' => like rest s' end
      else
        fun s => match s with
                 | EmptyString => false
                 | String d s' => Ascii.eqb c d && like rest s'
                 end
  end.

(** An environment where the [n]-th external call fails as [faults n]
    says, the clocks stand at [now] and identifiers count up from 1. *)
Definition env_with (faults : nat -> option error) (now : Time) : Env :=
  mkEnv faults (fun _ => now) (fun _ => now) (fun n => N.of_nat (S n))
    unmarshal_filter marshal_filter marshal_result unmarshal_result
    lower (fun message pattern => like pattern (lower message)).

Definition no_fault : nat -> option error := fun _ => None.

(** Only the [n]-th external call fails. *)
Definition fault_at (n : nat) (e : error) : nat -> option error :=
  fun k => if (k =? n)%nat then Some e else None.

Definition env0 : Env := env_with no_fault t0.

Definition svc0 : LogService := mkLogService true 30.

Definition world0 : World := mkWorld [] [] [] ∅ [] [] [] 0 0 [].

Definition tenantA : UUID := 10%N.
Definition tenantB : UUID := 11%N.

Definition entry_at (id tenant : UUID) (level : LogLevel) (ts : Time) : LogEntry :=
  mkLogEntry id tenant "api" level "request timeout" ts "" "" None "" "" "" "" "".

(** A filter whose [min_level] is not one of the five levels. *)
Definition trace_filter : LogFilter :=
  mkLogFilter None "" "" "TRACE" None None "" None "" "" "" 1 50.

Definition with_logs (entries : list LogEntry) : World := set_log_entries entries world0.
Definition with_alerts (rules : list LogAlert) : World := set_log_alerts rules world0.

(** An enabled rule of tenant A. *)
Definition rule (id : UUID) (name : string) (filter : RawMessage)
    (last : option Time) : LogAlert :=
  mkLogAlert id tenantA name "" true filter 1 5 "high" "[]" last.

(** An entry of service [api] whose message does not contain [timeout]. *)
Definition quiet_entry : LogEntry :=
  mkLogEntry 1%N tenantB "api" "INFO" "ok" t0 "" "" None "" "" "" "" "".

(** Two enabled rules: the filter of the first is not valid JSON, the
    second matches every entry. *)
Definition broken_rule : LogAlert := rule 1%N "broken" "{" None.
Definition catch_all_rule : LogAlert := rule 2%N "catch all" "{}" None.

Definition two_rules_world : World := with_alerts [broken_rule; catch_all_rule].

(** A rule last triggered exactly 60 seconds before [t0]. *)
Definition boundary_rule : LogAlert := rule 3%N "boundary" "{}" (Some (t0 - Minute)).

(** A rule last triggered 59 seconds before [t0]. *)
Definition cooling_rule : LogAlert := rule 4%N "cooling" "{}" (Some (t0 - 59 * Second)).

(** Tenant A keeps its logs for 90 days; the default window of [svc0] is
    30 days and tenant B has no policy. *)
Definition policyA : LogRetention := mkLogRetention 20%N tenantA 90 10 false "".

(** An entry of tenant A that is 40 days old at [t0], one that is exactly
    90 days old, and an entry of tenant B that is 10 days old. *)
Definition entryA_40d : LogEntry := entry_at 31%N tenantA "INFO" (t0 - 40 * day).
Definition entryA_90d : LogEntry := entry_at 32%N tenantA "INFO" (t0 - 90 * day).
Definition entryB_10d : LogEntry := entry_at 33%N tenantB "INFO" (t0 - 10 * day).

Definition retention_world (entries : list LogEntry) : World :=
  mkWorld entries [] [policyA] ∅ [] [] [] 0 0 [].

(** An entry submitted without identifier and without timestamp. *)
Definition blank_entry : LogEntry :=
  mkLogEntry uuid_Nil tenantA "api" "ERROR" "boom" 0 "" "" None "" "" "" "" "".

End Sample.

(** ** Further sample worlds *)

Module Cases.

(** A table with one entry, and a cache that already holds the empty
    result under the key of the zero filter. *)
Definition cached_world : World :=
  set_redis_data
    {[ buildCacheKey Sample.env0 Sample.zero_filter
       := (Sample.empty_result_json, 30 * Second) ]}
    (Sample.with_logs [Sample.quiet_entry]).

(** A buffer one entry short of the high-water mark. *)
Definition nearly_full_world : World :=
  set_buffer (repeat Sample.quiet_entry 999) Sample.world0.

(** [uuid.Parse] on the one header the sample requests carry: the textual
    form of tenant A's identifier. *)
Definition tenantA_header : string := "00000000-0000-0000-0000-00000000000a".

Definition parse_header (s : string) : option UUID :=
  if String.eqb s tenantA_header then Some Sample.tenantA else None.

(** Three entries of two tenants. *)
Definition three_entries : list LogEntry :=
  [Sample.entryA_90d; Sample.entryB_10d; Sample.entryA_40d].

End Cases.

(** * Properties *)

(** ** Tactics for running the monad *)

Create HintDb go_unfold.
#[export] Hint Unfold bind ret get_world modify printf go external time_Now
  time_Since uuid_New_call : go_unfold.

Ltac run := autounfold with go_unfold; simpl.

(** Reduce projections of updated worlds, and nothing else. *)
Ltac world_simpl :=
  cbn [log_entries log_alerts log_retention_policies redis_data buffer stdout
       calls clock_reads uuid_draws spawned set_log_entries set_log_alerts
       set_redis_data set_buffer set_stdout set_calls set_clock_reads
       set_uuid_draws set_spawned fst snd].

(** ** Clauses *)

Lemma selects_Where q cond e : selects (Where q cond) e = selects q e && cond e.
Proof.
  unfold selects, Where. rewrite forallb_app. simpl. now rewrite andb_true_r.
Qed.

Lemma selects_Where_if guard q cond e :
  selects (Where_if guard q cond) e = selects q e && (if guard then cond e else true).
Proof.
  destruct guard; simpl; [apply selects_Where | now rewrite andb_true_r].
Qed.

Lemma selects_Where_ptr {A} (ptr : option A) q cond e :
  selects (Where_ptr ptr q cond) e
  = selects q e && match ptr with Some v => cond v e | None => true end.
Proof.
  destruct ptr; simpl; [apply selects_Where | now rewrite andb_true_r].
Qed.

Lemma filter_none {A} (p : A -> bool) (l : list A) :
  (forall x, p x = false) -> List.filter p l = [].
Proof.
  intros Hp. induction l as [|x l IH]; simpl; [reflexivity|].
  now rewrite Hp.
Qed.

(** ** getLevelsAtOrAbove *)

Lemma levels_loop_found level ls : levels_loop level true ls = ls.
Proof.
  induction ls as [|l ls IH]; simpl; [reflexivity|].
  destruct (String.eqb l level); now rewrite IH.
Qed.

Lemma levels_loop_absent level ls :
  ~ In level ls -> levels_loop level false ls = [].
Proof.
  induction ls as [|l ls IH]; simpl; intros Hn; [reflexivity|].
  destruct (String.eqb_spec l level) as [->|Hne].
  - exfalso. apply Hn. now left.
  - apply IH. intros Hin. apply Hn. now right.
Qed.

Lemma levels_loop_suffix level pre post :
  ~ In level pre ->
  levels_loop level false (pre ++ level :: post) = level :: post.
Proof.
  induction pre as [|l pre IH]; simpl; intros Hn.
  - rewrite String.eqb_refl. now rewrite levels_loop_found.
  - destruct (String.eqb_spec l level) as [->|Hne].
    + exfalso. apply Hn. now left.
    + apply IH. intros Hin. apply Hn. now right.
Qed.

Lemma levels_NoDup : List.NoDup levels.
Proof.
  unfold levels. repeat constructor; simpl; intuition discriminate.
Qed.

Lemma NoDup_split_absent {A} (pre : list A) x post :
  List.NoDup (pre ++ x :: post) -> ~ In x pre.
Proof.
  intros Hnd Hin. apply List.NoDup_remove_2 in Hnd.
  apply Hnd. apply in_or_app. now left.
Qed.

Lemma nonempty_true s : s <> EmptyString -> nonempty s = true.
Proof.
  intros Hs. unfold nonempty. now destruct (String.eqb_spec s EmptyString).
Qed.

Lemma buildQuery_unknown_MinLevel env filter e :
  filter_MinLevel filter <> EmptyString ->
  ~ In (filter_MinLevel filter) levels ->
  selects (buildQuery env filter) e = false.
Proof.
  intros Hne Habs. unfold buildQuery. cbv zeta.
  repeat (rewrite selects_Where_if || rewrite selects_Where_ptr).
  rewrite (nonempty_true _ Hne).
  unfold getLevelsAtOrAbove. rewrite (levels_loop_absent _ _ Habs). simpl.
  now rewrite andb_false_r.
Qed.

Lemma LogRepository_Query_no_rows env filter w :
  (forall e, selects (buildQuery env filter) e = false) ->
  exists err, fst (LogRepository_Query env filter w) = ([], 0, err).
Proof.
  intros Hsel. unfold LogRepository_Query. run.
  destruct (fault env (length (calls w))) as [e|]; simpl; [now exists (Some e)|].
  rewrite length_app. simpl.
  destruct (fault env _) as [e|]; simpl; [now exists (Some e)|].
  exists None. rewrite (filter_none _ _ Hsel). simpl.
  unfold sql_limit, sql_offset. now rewrite drop_nil, take_nil.
Qed.

(** C9. [getLevelsAtOrAbove level] is the suffix of
    [DEBUG, INFO, WARN, ERROR, FATAL] that starts at [level]; for a level
    outside these five it is the empty list, and a filter that carries such
    a [min_level] selects no row: [LogRepository.Query] returns no entry and
    a total of 0. *)
Theorem getLevelsAtOrAbove_suffix_of_levels :
  (forall pre level post,
      levels = pre ++ level :: post ->
      getLevelsAtOrAbove level = level :: post) /\
  (forall level, ~ In level levels -> getLevelsAtOrAbove level = []) /\
  (forall env filter,
      filter_MinLevel filter <> EmptyString ->
      ~ In (filter_MinLevel filter) levels ->
      (forall e, selects (buildQuery env filter) e = false) /\
      (forall w, exists err,
          fst (LogRepository_Query env filter w) = ([], 0, err))).
Proof.
  split; [|split].
  - intros pre level post Heq. unfold getLevelsAtOrAbove. rewrite Heq.
    apply levels_loop_suffix. apply NoDup_split_absent with (post := post).
    rewrite <- Heq. apply levels_NoDup.
  - intros level Habs. now apply levels_loop_absent.
  - intros env filter Hne Habs.
    assert (Hsel : forall e, selects (buildQuery env filter) e = false)
      by (intros e; now apply buildQuery_unknown_MinLevel).
    split; [exact Hsel|]. intros w. now apply LogRepository_Query_no_rows.
Qed.

Lemma getLevelsAtOrAbove_suffix_of_levels_witness :
  getLevelsAtOrAbove LogLevelWarn = [LogLevelWarn; LogLevelError; LogLevelFatal] /\
  getLevelsAtOrAbove "TRACE" = [] /\
  exists err,
    fst (LogRepository_Query Sample.env0 Sample.trace_filter
           (Sample.with_logs [Sample.quiet_entry])) = ([], 0, err).
Proof.
  destruct getLevelsAtOrAbove_suffix_of_levels as (Hsuf & Habs & Hq).
  split; [|split].
  - apply (Hsuf [LogLevelDebug; LogLevelInfo]). reflexivity.
  - apply Habs. vm_compute. intuition discriminate.
  - apply Hq; vm_compute; intuition discriminate.
Defined.

(** ** matchesAlert *)

(** C6. For a rule whose filter decodes, [matchesAlert] holds exactly when
    each of service name, exact level and tenant that the filter specifies
    (a non-empty string, a non-nil tenant pointer) equals the entry's field;
    two filters that agree on these three fields give the same answer,
    whatever their other fields hold. *)
Theorem matchesAlert_three_fields env entry alert filter :
  json_Unmarshal_LogFilter env (alert_Filter alert) = Some filter ->
  (matchesAlert env entry alert = true <->
     (filter_ServiceName filter = EmptyString
      \/ filter_ServiceName filter = entry_ServiceName entry) /\
     (filter_Level filter = EmptyString
      \/ filter_Level filter = entry_Level entry) /\
     (forall t, filter_TenantID filter = Some t -> t = entry_TenantID entry)) /\
  (forall alert' filter',
     json_Unmarshal_LogFilter env (alert_Filter alert') = Some filter' ->
     filter_ServiceName filter' = filter_ServiceName filter ->
     filter_Level filter' = filter_Level filter ->
     filter_TenantID filter' = filter_TenantID filter ->
     matchesAlert env entry alert' = matchesAlert env entry alert).
Proof.
  intros Hdec. split.
  - unfold matchesAlert. rewrite Hdec.
    destruct (String.eqb_spec (filter_ServiceName filter) EmptyString) as [Hs|Hs];
    destruct (String.eqb_spec (filter_ServiceName filter) (entry_ServiceName entry)) as [Hs'|Hs'];
    destruct (String.eqb_spec (filter_Level filter) EmptyString) as [Hl|Hl];
    destruct (String.eqb_spec (filter_Level filter) (entry_Level entry)) as [Hl'|Hl'];
    simpl;
    try (split; [discriminate | intros (H1 & H2 & _); tauto]);
    (destruct (filter_TenantID filter) as [t|];
     [ destruct (N.eqb_spec t (entry_TenantID entry)) as [Ht|Ht]; simpl;
       (split;
        [ first [ discriminate
                | intros _; repeat split; auto; intros t' [= <-]; exact Ht ]
        | first [ reflexivity
                | intros (_ & _ & H3); exfalso; apply Ht; now apply H3 ] ])
     | split; [ intros _; repeat split; auto; discriminate | reflexivity ] ]).
  - intros alert' filter' Hdec' Hs Hl Ht. unfold matchesAlert.
    rewrite Hdec, Hdec', Hs, Hl, Ht. reflexivity.
Qed.

Lemma matchesAlert_three_fields_witness :
  matchesAlert Sample.env0 Sample.quiet_entry
    (Sample.rule 1%N "api errors" Sample.api_filter_json None) = true.
Proof.
  apply (matchesAlert_three_fields Sample.env0 Sample.quiet_entry
           (Sample.rule 1%N "api errors" Sample.api_filter_json None)
           Sample.api_filter).
  - reflexivity.
  - vm_compute. intuition discriminate.
Defined.

(** ** Alert evaluation *)

Lemma for_range_app {A} (xs ys : list A) (body : A -> M unit) w :
  for_range (xs ++ ys) body w = for_range ys body (snd (for_range xs body w)).
Proof.
  revert w. induction xs as [|x xs IH]; intros w; simpl; [reflexivity|].
  unfold bind. destruct (body x w) as [u w1]. apply IH.
Qed.

Lemma checkAlerts_load_failure env entry w e :
  fault env (length (calls w)) = Some e ->
  checkAlerts env entry w = (tt, set_calls (calls w ++ [CallFindEnabled]) w).
Proof.
  intros Hf. unfold checkAlerts, AlertRepository_FindEnabled. run.
  now rewrite Hf.
Qed.

Lemma checkAlerts_loaded env entry w :
  fault env (length (calls w)) = None ->
  checkAlerts env entry w
  = for_range (List.filter alert_Enabled (log_alerts w)) (checkAlerts_rule env entry)
      (set_calls (calls w ++ [CallFindEnabled]) w).
Proof.
  intros Hf. unfold checkAlerts, AlertRepository_FindEnabled. run.
  now rewrite Hf.
Qed.

Lemma matchesAlert_undecodable env entry alert :
  json_Unmarshal_LogFilter env (alert_Filter alert) = None ->
  matchesAlert env entry alert = false.
Proof. intros Hdec. unfold matchesAlert. now rewrite Hdec. Qed.

Lemma for_range_skip_undecodable env entry bad pre post w :
  json_Unmarshal_LogFilter env (alert_Filter bad) = None ->
  for_range (pre ++ bad :: post) (checkAlerts_rule env entry) w
  = for_range (pre ++ post) (checkAlerts_rule env entry) w.
Proof.
  intros Hdec. rewrite !for_range_app. simpl. unfold bind at 1.
  unfold checkAlerts_rule at 1. rewrite (matchesAlert_undecodable _ _ _ Hdec).
  reflexivity.
Qed.

(** The defaults, as equations. *)
Lemma set_ID_default_eq env entry w :
  set_ID_default env entry w
  = if N.eqb (entry_ID entry) uuid_Nil
    then (set_entry_ID (uuid_New env (uuid_draws w)) entry,
          set_uuid_draws (S (uuid_draws w)) w)
    else (entry, w).
Proof. unfold set_ID_default. now destruct (N.eqb _ _). Qed.

Lemma set_Timestamp_default_now_eq env entry w :
  set_Timestamp_default (time_Now env) entry w
  = if time_IsZero (entry_Timestamp entry)
    then (set_entry_Timestamp (clock env (clock_reads w)) entry,
          set_clock_reads (S (clock_reads w)) w)
    else (entry, w).
Proof. unfold set_Timestamp_default. now destruct (time_IsZero _). Qed.

Lemma set_Timestamp_default_ret_eq now entry w :
  set_Timestamp_default (ret now) entry w
  = (if time_IsZero (entry_Timestamp entry)
     then set_entry_Timestamp now entry else entry, w).
Proof. unfold set_Timestamp_default. now destruct (time_IsZero _). Qed.

Lemma IngestSingle_error env entry w :
  snd (fst (IngestSingle env entry w)) = fault env (length (calls w)).
Proof.
  unfold IngestSingle, bind.
  rewrite set_ID_default_eq.
  destruct (N.eqb (entry_ID entry) uuid_Nil);
    rewrite set_Timestamp_default_now_eq;
    destruct (time_IsZero _); unfold LogRepository_Create; run;
    destruct (fault env (length (calls w))); reflexivity.
Qed.

Lemma set_uuid_draws_same w : set_uuid_draws (uuid_draws w) w = w.
Proof. now destruct w. Qed.

Lemma batch_defaults_eq env now entries w :
  batch_defaults env now entries w
  = (batch_defaults_result env now (uuid_draws w) entries,
     set_uuid_draws (uuid_draws w + count_no_ID entries) w).
Proof.
  revert w. induction entries as [|entry rest IH]; intros w.
  - simpl. unfold ret, count_no_ID. simpl.
    now rewrite Nat.add_0_r, set_uuid_draws_same.
  - simpl. unfold bind. rewrite set_ID_default_eq.
    unfold count_no_ID, no_ID. simpl.
    destruct (N.eqb (entry_ID entry) uuid_Nil); simpl;
      rewrite set_Timestamp_default_ret_eq, IH; unfold ret; simpl.
    + unfold count_no_ID, no_ID. f_equal.
      destruct w; unfold set_uuid_draws; simpl. f_equal. lia.
    + reflexivity.
Qed.

Lemma batch_defaults_result_length env now k entries :
  length (batch_defaults_result env now k entries) = length entries.
Proof.
  revert k. induction entries as [|entry rest IH]; intros k; simpl;
    [reflexivity | now rewrite IH].
Qed.

Lemma IngestBatch_error env entries w :
  snd (fst (IngestBatch env entries w))
  = match entries with
    | [] => None
    | _ :: _ => fault env (length (calls w))
    end.
Proof.
  unfold IngestBatch, bind, time_Now. rewrite batch_defaults_eq.
  unfold go, modify, LogRepository_CreateBatch.
  rewrite batch_defaults_result_length.
  destruct entries as [|entry rest]; simpl; [reflexivity|].
  run. destruct (fault env (length (calls w))); reflexivity.
Qed.

(** C2, as the code has it.  A failure to load the enabled rules aborts the
    evaluation: one call to the store, nothing matched, triggered or
    printed.  A rule whose filter does not decode does not match and is
    skipped, and the evaluation goes on with the other rules as if that rule
    were absent.  Neither ingestion path returns anything but the outcome
    of its own store write. *)
Theorem checkAlerts_failure_handling env entry w :
  (forall e, fault env (length (calls w)) = Some e ->
     checkAlerts env entry w = (tt, set_calls (calls w ++ [CallFindEnabled]) w)) /\
  (forall bad pre post,
     fault env (length (calls w)) = None ->
     List.filter alert_Enabled (log_alerts w) = pre ++ bad :: post ->
     json_Unmarshal_LogFilter env (alert_Filter bad) = None ->
     matchesAlert env entry bad = false /\
     checkAlerts env entry w
     = for_range (pre ++ post) (checkAlerts_rule env entry)
         (set_calls (calls w ++ [CallFindEnabled]) w)) /\
  snd (fst (IngestSingle env entry w)) = fault env (length (calls w)) /\
  (forall entries,
     snd (fst (IngestBatch env entries w))
     = match entries with
       | [] => None
       | _ :: _ => fault env (length (calls w))
       end).
Proof.
  split; [|split; [|split]].
  - intros e Hf. now apply checkAlerts_load_failure with (e := e).
  - intros bad pre post Hf Hrules Hdec. split.
    + now apply matchesAlert_undecodable.
    + rewrite (checkAlerts_loaded _ _ _ Hf), Hrules.
      now apply for_range_skip_undecodable.
  - apply IngestSingle_error.
  - intros entries. apply IngestBatch_error.
Qed.

Lemma checkAlerts_failure_handling_witness :
  checkAlerts (Sample.env_with (Sample.fault_at 0 (ErrDB 1)) Sample.t0)
    Sample.quiet_entry (Sample.with_alerts [Sample.catch_all_rule])
  = (tt, set_calls [CallFindEnabled] (Sample.with_alerts [Sample.catch_all_rule]))
  /\ checkAlerts Sample.env0 Sample.quiet_entry
       (Sample.with_alerts [Sample.broken_rule; Sample.catch_all_rule])
     = for_range [Sample.catch_all_rule]
         (checkAlerts_rule Sample.env0 Sample.quiet_entry)
         (set_calls [CallFindEnabled]
            (Sample.with_alerts [Sample.broken_rule; Sample.catch_all_rule])).
Proof.
  split.
  - apply (proj1 (checkAlerts_failure_handling
             (Sample.env_with (Sample.fault_at 0 (ErrDB 1)) Sample.t0)
             Sample.quiet_entry (Sample.with_alerts [Sample.catch_all_rule]))
             (ErrDB 1)).
    reflexivity.
  - apply (proj1 (proj2 (checkAlerts_failure_handling Sample.env0
             Sample.quiet_entry
             (Sample.with_alerts [Sample.broken_rule; Sample.catch_all_rule])))
             Sample.broken_rule [] [Sample.catch_all_rule]); reflexivity.
Defined.

(** C2 as stated fails: with an undecodable rule listed first, the rule
    listed after it is still matched and triggered by the same call. *)
Lemma checkAlerts_goes_on_after_undecodable_filter :
  json_Unmarshal_LogFilter Sample.env0 (alert_Filter Sample.broken_rule) = None /\
  List.filter alert_Enabled (log_alerts Sample.two_rules_world)
  = [Sample.broken_rule; Sample.catch_all_rule] /\
  matchesAlert Sample.env0 Sample.quiet_entry Sample.catch_all_rule = true /\
  calls (snd (checkAlerts Sample.env0 Sample.quiet_entry Sample.two_rules_world))
  = [CallFindEnabled; CallUpdateLastTriggered (alert_ID Sample.catch_all_rule)] /\
  stdout (snd (checkAlerts Sample.env0 Sample.quiet_entry Sample.two_rules_world))
  = [OutAlertTriggered "catch all" "ok"] /\
  log_alerts (snd (checkAlerts Sample.env0 Sample.quiet_entry Sample.two_rules_world))
  = [Sample.broken_rule;
     set_alert_LastTriggered (Some Sample.t0) Sample.catch_all_rule].
Proof. vm_compute. repeat split; reflexivity. Qed.

(** ** The cooldown of triggerAlert *)

Lemma time_Sub_lt_Minute now last :
  (time_Sub now last <? Minute) = (now - last <? Minute).
Proof.
  unfold time_Sub, minInt64, maxInt64, Minute, Second.
  destruct (Z.ltb_spec (now - last) (60 * 1000000000));
    [apply Z.ltb_lt | apply Z.ltb_ge]; lia.
Qed.

Lemma triggerAlert_armed env alert entry w :
  alert_LastTriggered alert = None ->
  triggerAlert env alert entry w
  = (AlertRepository_UpdateLastTriggered env (alert_ID alert) ;;
     printf (OutAlertTriggered (alert_Name alert) (entry_Message entry))) w.
Proof. intros Hl. unfold triggerAlert. rewrite Hl. reflexivity. Qed.

Lemma triggerAlert_elapsed env alert entry w last :
  alert_LastTriggered alert = Some last ->
  Minute <= clock env (clock_reads w) - last ->
  triggerAlert env alert entry w
  = (AlertRepository_UpdateLastTriggered env (alert_ID alert) ;;
     printf (OutAlertTriggered (alert_Name alert) (entry_Message entry)))
      (set_clock_reads (S (clock_reads w)) w).
Proof.
  intros Hl Hge. unfold triggerAlert. rewrite Hl.
  autounfold with go_unfold. cbv beta iota.
  rewrite time_Sub_lt_Minute.
  destruct (Z.ltb_spec (clock env (clock_reads w) - last) Minute); [lia|].
  reflexivity.
Qed.

Lemma triggerAlert_limited env alert entry w last :
  alert_LastTriggered alert = Some last ->
  clock env (clock_reads w) - last < Minute ->
  triggerAlert env alert entry w = (tt, set_clock_reads (S (clock_reads w)) w).
Proof.
  intros Hl Hlt. unfold triggerAlert. rewrite Hl.
  autounfold with go_unfold. cbv beta iota.
  rewrite time_Sub_lt_Minute.
  destruct (Z.ltb_spec (clock env (clock_reads w) - last) Minute); [|lia].
  reflexivity.
Qed.

(** What the update and the notification leave behind, from any world in
    which no call was made since [w]. *)
Lemma update_then_notify env id name message w0 w :
  calls w0 = calls w -> stdout w0 = stdout w -> log_alerts w0 = log_alerts w ->
  let w' := snd ((AlertRepository_UpdateLastTriggered env id ;;
                  printf (OutAlertTriggered name message)) w0) in
  calls w' = calls w ++ [CallUpdateLastTriggered id] /\
  stdout w' = stdout w ++ [OutAlertTriggered name message] /\
  log_alerts w'
  = match fault env (length (calls w)) with
    | Some _ => log_alerts w
    | None =>
        map (fun a => if N.eqb (alert_ID a) id
                      then set_alert_LastTriggered
                             (Some (db_now env (length (calls w)))) a
                      else a) (log_alerts w)
    end.
Proof.
  intros Hc Hs Ha. unfold AlertRepository_UpdateLastTriggered. run.
  rewrite Hc. destruct (fault env (length (calls w))); simpl;
    rewrite ?Hc, ?Hs, ?Ha; auto.
Qed.

(** C3, as the code has it.  A rule that was never triggered, or whose last
    trigger lies 60 seconds or more before the clock reading (exactly 60
    seconds included), is triggered: one [UpdateLastTriggered] call is made,
    which on success sets [last_triggered] of that rule to the store's
    current time and whose error is ignored, and the notification is
    printed.  A rule triggered less than 60 seconds ago is dropped: no call,
    no notification, no table touched. *)
Theorem triggerAlert_cooldown env alert entry w :
  (alert_LastTriggered alert = None \/
   (exists last, alert_LastTriggered alert = Some last /\
                 Minute <= clock env (clock_reads w) - last) ->
   calls (snd (triggerAlert env alert entry w))
   = calls w ++ [CallUpdateLastTriggered (alert_ID alert)] /\
   stdout (snd (triggerAlert env alert entry w))
   = stdout w ++ [OutAlertTriggered (alert_Name alert) (entry_Message entry)] /\
   log_alerts (snd (triggerAlert env alert entry w))
   = match fault env (length (calls w)) with
     | Some _ => log_alerts w
     | None =>
         map (fun a => if N.eqb (alert_ID a) (alert_ID alert)
                       then set_alert_LastTriggered
                              (Some (db_now env (length (calls w)))) a
                       else a) (log_alerts w)
     end) /\
  (forall last,
     alert_LastTriggered alert = Some last ->
     clock env (clock_reads w) - last < Minute ->
     triggerAlert env alert entry w = (tt, set_clock_reads (S (clock_reads w)) w)).
Proof.
  split.
  - intros [Hnone | (last & Hlast & Hge)].
    + rewrite (triggerAlert_armed _ _ _ _ Hnone).
      now apply update_then_notify.
    + rewrite (triggerAlert_elapsed _ _ _ _ _ Hlast Hge).
      now apply update_then_notify.
  - intros last Hlast Hlt. now apply triggerAlert_limited with (last := last).
Qed.

Lemma triggerAlert_cooldown_witness :
  stdout (snd (triggerAlert Sample.env0 Sample.catch_all_rule Sample.quiet_entry
                 (Sample.with_alerts [Sample.catch_all_rule])))
  = stdout (Sample.with_alerts [Sample.catch_all_rule])
    ++ [OutAlertTriggered "catch all" "ok"]
  /\ triggerAlert Sample.env0 Sample.cooling_rule Sample.quiet_entry
       (Sample.with_alerts [Sample.cooling_rule])
     = (tt, set_clock_reads 1 (Sample.with_alerts [Sample.cooling_rule])).
Proof.
  split.
  - apply (proj1 (triggerAlert_cooldown Sample.env0 Sample.catch_all_rule
                    Sample.quiet_entry
                    (Sample.with_alerts [Sample.catch_all_rule]))).
    left. reflexivity.
  - apply (proj2 (triggerAlert_cooldown Sample.env0 Sample.cooling_rule
                    Sample.quiet_entry
                    (Sample.with_alerts [Sample.cooling_rule]))
             (Sample.t0 - 59 * Second)).
    + reflexivity.
    + vm_compute. reflexivity.
Defined.

(** C3 as stated fails at the boundary: a rule last triggered exactly 60
    seconds before the clock reading is not dropped, it is triggered. *)
Lemma triggerAlert_fires_at_exactly_60_seconds :
  alert_LastTriggered Sample.boundary_rule = Some (Sample.t0 - 60 * Second) /\
  clock Sample.env0 (clock_reads (Sample.with_alerts [Sample.boundary_rule]))
  = Sample.t0 /\
  calls (snd (triggerAlert Sample.env0 Sample.boundary_rule Sample.quiet_entry
                (Sample.with_alerts [Sample.boundary_rule])))
  = [CallUpdateLastTriggered (alert_ID Sample.boundary_rule)] /\
  stdout (snd (triggerAlert Sample.env0 Sample.boundary_rule Sample.quiet_entry
                 (Sample.with_alerts [Sample.boundary_rule])))
  = [OutAlertTriggered "boundary" "ok"] /\
  log_alerts (snd (triggerAlert Sample.env0 Sample.boundary_rule Sample.quiet_entry
                     (Sample.with_alerts [Sample.boundary_rule])))
  = [set_alert_LastTriggered (Some Sample.t0) Sample.boundary_rule].
Proof. vm_compute. repeat split; reflexivity. Qed.

(** ** flushBuffer *)

Lemma flushBuffer_empty env w : buffer w = [] -> flushBuffer env w = (tt, w).
Proof. intros Hb. unfold flushBuffer. run. now rewrite Hb. Qed.

Lemma flushBuffer_nonempty env w :
  buffer w <> [] ->
  flushBuffer env w
  = match fault env (length (calls w)) with
    | Some e =>
        (tt, set_stdout (stdout w ++ [OutFlushFailed e])
               (set_calls (calls w ++ [CallCreateInBatches (buffer w) 1000])
                  (set_buffer [] w)))
    | None =>
        (tt, set_log_entries (log_entries w ++ buffer w)
               (set_calls (calls w ++ [CallCreateInBatches (buffer w) 1000])
                  (set_buffer [] w)))
    end.
Proof.
  intros Hb. unfold flushBuffer, LogRepository_CreateBatch. run.
  destruct (buffer w) as [|entry rest]; [congruence|]. simpl.
  destruct (fault env (length (calls w))); reflexivity.
Qed.

(** C4. [flushBuffer] always leaves the buffer empty.  From an empty buffer
    it changes nothing and calls nothing.  From a non-empty buffer it makes
    exactly one store call, [CreateInBatches] with the buffered entries as
    they were; on success these entries are added to the table, on failure
    the error is printed, nothing is retried or scheduled, and the entries
    are not put back into the buffer. *)
Theorem flushBuffer_swaps_and_writes_once env w :
  buffer (snd (flushBuffer env w)) = [] /\
  (buffer w = [] -> flushBuffer env w = (tt, w)) /\
  (buffer w <> [] ->
     calls (snd (flushBuffer env w))
     = calls w ++ [CallCreateInBatches (buffer w) 1000] /\
     spawned (snd (flushBuffer env w)) = spawned w /\
     (fault env (length (calls w)) = None ->
        log_entries (snd (flushBuffer env w)) = log_entries w ++ buffer w /\
        stdout (snd (flushBuffer env w)) = stdout w) /\
     (forall e, fault env (length (calls w)) = Some e ->
        log_entries (snd (flushBuffer env w)) = log_entries w /\
        stdout (snd (flushBuffer env w)) = stdout w ++ [OutFlushFailed e])).
Proof.
  assert (Hcases : buffer w = [] \/ buffer w <> [])
    by (destruct (buffer w); [now left | now right]).
  split; [|split].
  - destruct Hcases as [Hb | Hb].
    + now rewrite (flushBuffer_empty _ _ Hb).
    + rewrite (flushBuffer_nonempty _ _ Hb).
      now destruct (fault env (length (calls w))).
  - apply flushBuffer_empty.
  - intros Hb. rewrite (flushBuffer_nonempty _ _ Hb).
    destruct (fault env (length (calls w))) as [e|]; simpl.
    + split; [reflexivity|]. split; [reflexivity|]. split; [discriminate|].
      intros e' [= <-]. now split.
    + split; [reflexivity|]. split; [reflexivity|]. split; [|discriminate].
      intros _. now split.
Qed.

Lemma flushBuffer_swaps_and_writes_once_witness :
  flushBuffer Sample.env0 Sample.world0 = (tt, Sample.world0) /\
  calls (snd (flushBuffer Sample.env0 (set_buffer [Sample.quiet_entry] Sample.world0)))
  = calls (set_buffer [Sample.quiet_entry] Sample.world0)
    ++ [CallCreateInBatches [Sample.quiet_entry] 1000].
Proof.
  split.
  - apply (proj1 (proj2 (flushBuffer_swaps_and_writes_once Sample.env0 Sample.world0))).
    reflexivity.
  - apply (proj2 (proj2 (flushBuffer_swaps_and_writes_once Sample.env0
                           (set_buffer [Sample.quiet_entry] Sample.world0)))).
    discriminate.
Defined.

(** ** Retention cleanup *)

Lemma wrap64_neg d : minInt64 < d <= maxInt64 -> wrap64 (- d) = - d.
Proof.
  unfold minInt64, maxInt64, wrap64. intros Hd.
  rewrite Z.mod_small; lia.
Qed.

Lemma selects_older_than tenantID before e :
  selects (older_than tenantID before) e
  = (entry_Timestamp e <? before)
    && match tenantID with
       | Some t => N.eqb (entry_TenantID e) t
       | None => true
       end.
Proof.
  unfold older_than. cbv zeta. rewrite selects_Where_ptr, selects_Where.
  reflexivity.
Qed.

Lemma DeleteOlderThan_eq env tenantID before w :
  LogRepository_DeleteOlderThan env tenantID before w
  = match fault env (length (calls w)) with
    | Some e => ((0, Some e), set_calls (calls w ++ [CallDelete tenantID before]) w)
    | None =>
        ((Z.of_nat (length (List.filter (selects (older_than tenantID before))
                              (log_entries w))), None),
         set_log_entries
           (List.filter (fun e => negb (selects (older_than tenantID before) e))
              (log_entries w))
           (set_calls (calls w ++ [CallDelete tenantID before]) w))
    end.
Proof.
  unfold LogRepository_DeleteOlderThan. run.
  destruct (fault env (length (calls w))); reflexivity.
Qed.

(** C10. When loading the retention policies fails, [Cleanup] returns that
    error after the one failed call: no deletion is issued, the default
    pass does not run and the table of entries is as it was. *)
Theorem Cleanup_policy_load_failure env svc w e :
  fault env (length (calls w)) = Some e ->
  Cleanup env svc w = (Some e, set_calls (calls w ++ [CallFindPolicies]) w) /\
  log_entries (snd (Cleanup env svc w)) = log_entries w /\
  clock_reads (snd (Cleanup env svc w)) = clock_reads w.
Proof.
  intros Hf.
  assert (Heq : Cleanup env svc w
                = (Some e, set_calls (calls w ++ [CallFindPolicies]) w)).
  { unfold Cleanup, RetentionRepository_FindAll. run. now rewrite Hf. }
  rewrite Heq. now repeat split.
Qed.

Lemma Cleanup_policy_load_failure_witness :
  Cleanup (Sample.env_with (Sample.fault_at 0 (ErrDB 7)) Sample.t0) Sample.svc0
    (Sample.retention_world [Sample.entryA_40d])
  = (Some (ErrDB 7),
     set_calls [CallFindPolicies] (Sample.retention_world [Sample.entryA_40d])).
Proof.
  apply (Cleanup_policy_load_failure
           (Sample.env_with (Sample.fault_at 0 (ErrDB 7)) Sample.t0) Sample.svc0
           (Sample.retention_world [Sample.entryA_40d]) (ErrDB 7)).
  reflexivity.
Defined.

(** The pass for one policy, where its delete succeeds: it removes the
    entries of that tenant older than the cutoff and no other. *)
Lemma cleanup_policy_deletes_exactly env policy w :
  minInt64 < retention_RetentionDays policy <= maxInt64 ->
  fault env (length (calls w)) = None ->
  forall e,
    In e (log_entries (snd (cleanup_policy env policy w))) <->
    In e (log_entries w) /\
    ~ (entry_TenantID e = retention_TenantID policy /\
       entry_Timestamp e
       < clock env (clock_reads w) - retention_RetentionDays policy * nsPerDay).
Proof.
  intros Hd Hf e. unfold cleanup_policy. autounfold with go_unfold.
  cbv beta iota. rewrite DeleteOlderThan_eq. world_simpl. rewrite Hf.
  world_simpl. rewrite filter_In, selects_older_than, (wrap64_neg _ Hd).
  unfold time_AddDate_days.
  replace (clock env (clock_reads w) + - retention_RetentionDays policy * nsPerDay)
    with (clock env (clock_reads w) - retention_RetentionDays policy * nsPerDay)
    by lia.
  destruct (Z.ltb_spec (entry_Timestamp e)
              (clock env (clock_reads w) - retention_RetentionDays policy * nsPerDay));
    destruct (N.eqb_spec (entry_TenantID e) (retention_TenantID policy));
    simpl; intuition (try discriminate; try lia).
Qed.


(** What the pass for one policy does on its own, in the terms of C7: the
    deletion is exact, an entry at the cutoff stays, and a window of zero
    or fewer days removes every entry of the tenant stamped before the
    clock reading. *)
Lemma cleanup_policy_pass env policy w :
  minInt64 < retention_RetentionDays policy <= maxInt64 ->
  fault env (length (calls w)) = None ->
  (forall e,
     In e (log_entries (snd (cleanup_policy env policy w))) <->
     In e (log_entries w) /\
     ~ (entry_TenantID e = retention_TenantID policy /\
        entry_Timestamp e
        < clock env (clock_reads w) - retention_RetentionDays policy * nsPerDay)) /\
  (forall e,
     In e (log_entries w) ->
     entry_Timestamp e
     = clock env (clock_reads w) - retention_RetentionDays policy * nsPerDay ->
     In e (log_entries (snd (cleanup_policy env policy w)))) /\
  (retention_RetentionDays policy <= 0 ->
   forall e,
     entry_TenantID e = retention_TenantID policy ->
     entry_Timestamp e < clock env (clock_reads w) ->
     ~ In e (log_entries (snd (cleanup_policy env policy w)))).
Proof.
  intros Hd Hf.
  pose proof (cleanup_policy_deletes_exactly env policy w Hd Hf) as Hex.
  split; [exact Hex|]. split.
  - intros e Hin Hts. apply Hex. split; [exact Hin|]. lia.
  - intros Hle e Hten Hts Hin. apply Hex in Hin. destruct Hin as [_ Hkeep].
    apply Hkeep. split; [exact Hten|].
    unfold nsPerDay, Second in *. nia.
Qed.

(** C1 on a concrete table.  Tenant A has a policy of 90 days and an entry
    that is 40 days old.  The pass for A's policy keeps the entry; the
    default pass of 30 days, which names no tenant, deletes it. *)
Theorem Cleanup_default_pass_deletes_entry_of_tenant_with_policy :
  log_retention_policies (Sample.retention_world [Sample.entryA_40d; Sample.entryB_10d])
  = [Sample.policyA] /\
  entry_TenantID Sample.entryA_40d = retention_TenantID Sample.policyA /\
  log_entries (snd (cleanup_policy Sample.env0 Sample.policyA
                      (Sample.retention_world [Sample.entryA_40d; Sample.entryB_10d])))
  = [Sample.entryA_40d; Sample.entryB_10d] /\
  log_entries (snd (cleanup_default Sample.env0 Sample.svc0
                      (Sample.retention_world [Sample.entryA_40d; Sample.entryB_10d])))
  = [Sample.entryB_10d] /\
  Cleanup Sample.env0 Sample.svc0
    (Sample.retention_world [Sample.entryA_40d; Sample.entryB_10d])
  = (None,
     mkWorld [Sample.entryB_10d] [] [Sample.policyA] ∅ [] []
       [CallFindPolicies;
        CallDelete (Some Sample.tenantA) (Sample.t0 - 90 * Sample.day);
        CallDelete None (Sample.t0 - 30 * Sample.day)]
       2 0 []).
Proof. vm_compute. repeat split; reflexivity. Qed.

(** C7 on a concrete table.  Tenant A has a policy of 90 days, an entry
    that is 40 days old and an entry stamped exactly at A's cutoff.  The pass
    for A's policy keeps both; after [Cleanup] both are gone: the default
    pass of 30 days deleted them. *)
Theorem Cleanup_deletes_entries_inside_the_window_of_their_policy :
  entry_TenantID Sample.entryA_40d = retention_TenantID Sample.policyA /\
  entry_TenantID Sample.entryA_90d = retention_TenantID Sample.policyA /\
  entry_Timestamp Sample.entryA_90d
  = Sample.t0 - retention_RetentionDays Sample.policyA * nsPerDay /\
  Sample.t0 - retention_RetentionDays Sample.policyA * nsPerDay
  < entry_Timestamp Sample.entryA_40d /\
  log_entries (snd (cleanup_policy Sample.env0 Sample.policyA
                      (Sample.retention_world [Sample.entryA_40d; Sample.entryA_90d])))
  = [Sample.entryA_40d; Sample.entryA_90d] /\
  fst (Cleanup Sample.env0 Sample.svc0
         (Sample.retention_world [Sample.entryA_40d; Sample.entryA_90d]))
  = None /\
  log_entries (snd (Cleanup Sample.env0 Sample.svc0
                      (Sample.retention_world [Sample.entryA_40d; Sample.entryA_90d])))
  = [].
Proof. vm_compute. repeat split; reflexivity. Qed.

(** ** Query and its cache *)

Lemma Query_eq env svc filter w :
  Query env svc filter w
  = match cache_read env svc filter w with
    | ((Some cached, None), w1) => ((Some cached, None), w1)
    | (_, w1) =>
        match LogRepository_Query env filter w1 with
        | ((_, _, Some e), w2) => ((None, Some e), w2)
        | ((entries, total, None), w2) =>
            ((Some (result_of filter entries total), None),
             snd (cacheResult env svc (buildCacheKey env filter)
                    (result_of filter entries total) (30 * Second) w2))
        end
    end.
Proof.
  unfold Query, cache_read, bind at 1.
  destruct (getCachedResult env svc (buildCacheKey env filter) w)
    as [[[cached|] [e|]] w1]; try reflexivity;
    unfold bind at 1;
    destruct (LogRepository_Query env filter w1) as [[[entries total] [e'|]] w2];
    try reflexivity;
    unfold bind, ret, result_of;
    destruct (cacheResult env svc _ _ _ w2); reflexivity.
Qed.

Lemma cacheResult_eq env svc key result ttl w :
  snd (cacheResult env svc key result ttl w)
  = if svc_redis svc then
      match json_Marshal_LogQueryResult env result with
      | None => w
      | Some data =>
          match fault env (length (calls w)) with
          | Some _ => set_calls (calls w ++ [CallRedisSet key data ttl]) w
          | None =>
              set_redis_data (<[key := (data, ttl)]> (redis_data w))
                (set_calls (calls w ++ [CallRedisSet key data ttl]) w)
          end
      end
    else w.
Proof.
  unfold cacheResult, redis_Set. destruct (svc_redis svc); simpl; [|reflexivity].
  destruct (json_Marshal_LogQueryResult env result); [|reflexivity].
  run. destruct (fault env (length (calls w))); reflexivity.
Qed.

Lemma getCachedResult_eq env svc key w :
  getCachedResult env svc key w
  = if svc_redis svc then
      match fault env (length (calls w)) with
      | Some e => ((None, Some e), set_calls (calls w ++ [CallRedisGet key]) w)
      | None =>
          (match redis_data w !! key with
           | None => (None, Some ErrRedisNil)
           | Some (data, _) =>
               match json_Unmarshal_LogQueryResult env data with
               | None => (None, Some ErrJSON)
               | Some result => (Some result, None)
               end
           end, set_calls (calls w ++ [CallRedisGet key]) w)
      end
    else ((None, None), w).
Proof.
  unfold getCachedResult, redis_Get. destruct (svc_redis svc); simpl; [|reflexivity].
  run. destruct (fault env (length (calls w))); [reflexivity|]. simpl.
  destruct (redis_data w !! key) as [[data ttl]|]; [|reflexivity].
  destruct (json_Unmarshal_LogQueryResult env data); reflexivity.
Qed.

Lemma cache_read_no_client env svc filter w :
  svc_redis svc = false -> cache_read env svc filter w = ((None, None), w).
Proof.
  intros Hr. unfold cache_read. rewrite getCachedResult_eq. now rewrite Hr.
Qed.

Lemma cache_read_fault env svc filter w e :
  svc_redis svc = true ->
  fault env (length (calls w)) = Some e ->
  fst (cache_read env svc filter w) = (None, Some e).
Proof.
  intros Hr Hf. unfold cache_read. rewrite getCachedResult_eq. now rewrite Hr, Hf.
Qed.

(** Without a hit, [Query] answers from the store. *)
Lemma Query_miss env svc filter w :
  svc_redis svc = false \/
  (exists e, snd (fst (cache_read env svc filter w)) = Some e) ->
  Query env svc filter w
  = match store_read env svc filter w with
    | ((_, _, Some e), w2) => ((None, Some e), w2)
    | ((entries, total, None), w2) =>
        ((Some (result_of filter entries total), None),
         snd (cacheResult env svc (buildCacheKey env filter)
                (result_of filter entries total) (30 * Second) w2))
    end.
Proof.
  intros Hmiss. rewrite Query_eq. unfold store_read.
  destruct Hmiss as [Hr | (e & He)].
  - rewrite (cache_read_no_client _ _ _ _ Hr). reflexivity.
  - destruct (cache_read env svc filter w) as [[cached err] w1].
    simpl in He. subst err. now destruct cached.
Qed.

(** C5.  [Query] returns no error but the one of the store query.  When no
    Redis client is configured, or the cache read ends in an error (a failed
    [Get], a missing key, data that does not decode), the answer is the one
    of the store.  After a successful store query with a client present, the
    result is sent to the cache under the query's key with a TTL of 30
    seconds, and it is returned whether or not that write succeeds. *)
Theorem Query_degrades_to_store env svc filter w :
  (forall e,
     snd (fst (Query env svc filter w)) = Some e ->
     snd (fst (store_read env svc filter w)) = Some e) /\
  (forall e,
     svc_redis svc = true ->
     fault env (length (calls w)) = Some e ->
     fst (cache_read env svc filter w) = (None, Some e)) /\
  (svc_redis svc = false \/
   (exists e, snd (fst (cache_read env svc filter w)) = Some e) ->
   fst (Query env svc filter w)
   = match fst (store_read env svc filter w) with
     | (_, _, Some e) => (None, Some e)
     | (entries, total, None) => (Some (result_of filter entries total), None)
     end) /\
  (forall entries total data,
     (exists e, snd (fst (cache_read env svc filter w)) = Some e) ->
     fst (store_read env svc filter w) = (entries, total, None) ->
     svc_redis svc = true ->
     json_Marshal_LogQueryResult env (result_of filter entries total) = Some data ->
     fst (Query env svc filter w) = (Some (result_of filter entries total), None) /\
     calls (snd (Query env svc filter w))
     = calls (snd (store_read env svc filter w))
       ++ [CallRedisSet (buildCacheKey env filter) data (30 * Second)] /\
     redis_data (snd (Query env svc filter w))
     = match fault env (length (calls (snd (store_read env svc filter w)))) with
       | Some _ => redis_data (snd (store_read env svc filter w))
       | None =>
           <[buildCacheKey env filter := (data, 30 * Second)]>
             (redis_data (snd (store_read env svc filter w)))
       end).
Proof.
  split; [|split; [|split]].
  - intros e He. rewrite Query_eq in He. unfold store_read.
    destruct (cache_read env svc filter w) as [[[cached|] [e1|]] w1];
      simpl in *; try discriminate;
      destruct (LogRepository_Query env filter w1) as [[[entries total] [e2|]] w2];
      simpl in *; congruence.
  - intros e. apply cache_read_fault.
  - intros Hmiss. rewrite (Query_miss _ _ _ _ Hmiss).
    destruct (store_read env svc filter w) as [[[entries total] [e|]] w2];
      reflexivity.
  - intros entries total data Hmiss Hstore Hr Hm.
    rewrite (Query_miss _ _ _ _ (or_intror Hmiss)).
    destruct (store_read env svc filter w) as [[[entries' total'] err] w2].
    simpl in Hstore. injection Hstore as -> -> ->. world_simpl.
    rewrite cacheResult_eq, Hr, Hm.
    destruct (fault env (length (calls w2))); now repeat split.
Qed.

Lemma Query_degrades_to_store_witness :
  fst (Query Sample.env0 Sample.svc0 Sample.zero_filter Sample.world0)
  = (Some (result_of Sample.zero_filter [] 0), None) /\
  calls (snd (Query Sample.env0 Sample.svc0 Sample.zero_filter Sample.world0))
  = calls (snd (store_read Sample.env0 Sample.svc0 Sample.zero_filter Sample.world0))
    ++ [CallRedisSet (buildCacheKey Sample.env0 Sample.zero_filter)
          Sample.empty_result_json (30 * Second)] /\
  redis_data (snd (Query Sample.env0 Sample.svc0 Sample.zero_filter Sample.world0))
  = match fault Sample.env0
            (length (calls (snd (store_read Sample.env0 Sample.svc0
                                   Sample.zero_filter Sample.world0)))) with
    | Some _ =>
        redis_data (snd (store_read Sample.env0 Sample.svc0
                           Sample.zero_filter Sample.world0))
    | None =>
        <[buildCacheKey Sample.env0 Sample.zero_filter
          := (Sample.empty_result_json, 30 * Second)]>
          (redis_data (snd (store_read Sample.env0 Sample.svc0
                              Sample.zero_filter Sample.world0)))
    end.
Proof.
  apply (proj2 (proj2 (proj2 (Query_degrades_to_store Sample.env0 Sample.svc0
                                Sample.zero_filter Sample.world0)))).
  - exists ErrRedisNil. reflexivity.
  - reflexivity.
  - reflexivity.
  - reflexivity.
Defined.

(** A failed cache read on a concrete run: the first external call, the
    [Get], fails, and the answer still comes from the store. *)
Example Query_with_failing_cache :
  Query (Sample.env_with (Sample.fault_at 0 (ErrRedis 1)) Sample.t0)
    Sample.svc0 Sample.zero_filter Sample.world0
  = ((Some (result_of Sample.zero_filter [] 0), None),
     mkWorld [] [] []
       {[ buildCacheKey Sample.env0 Sample.zero_filter
          := (Sample.empty_result_json, 30 * Second) ]}
       [] []
       [CallRedisGet (buildCacheKey Sample.env0 Sample.zero_filter);
        CallCount Sample.zero_filter;
        CallFind Sample.zero_filter 0 100;
        CallRedisSet (buildCacheKey Sample.env0 Sample.zero_filter)
          Sample.empty_result_json (30 * Second)]
       0 0 []).
Proof. vm_compute. reflexivity. Qed.

(** ** Defaults set at ingestion *)

Lemma count_no_ID_app xs ys :
  count_no_ID (xs ++ ys) = (count_no_ID xs + count_no_ID ys)%nat.
Proof. unfold count_no_ID. now rewrite List.filter_app, length_app. Qed.

Lemma count_no_ID_take_le (entries : list LogEntry) i j :
  (i <= j)%nat ->
  (count_no_ID (take i entries) <= count_no_ID (take j entries))%nat.
Proof.
  intros Hij. rewrite <- (take_drop i (take j entries)).
  rewrite take_take, Nat.min_l by exact Hij.
  rewrite count_no_ID_app. lia.
Qed.

Lemma count_no_ID_take_S (entries : list LogEntry) i e :
  entries !! i = Some e ->
  no_ID e = true ->
  count_no_ID (take (S i) entries) = S (count_no_ID (take i entries)).
Proof.
  intros Hi Hno. rewrite (take_S_r _ _ _ Hi), count_no_ID_app.
  unfold count_no_ID at 2. simpl. rewrite Hno. simpl. lia.
Qed.

Lemma batch_defaults_result_lookup env now k (entries : list LogEntry) i e :
  entries !! i = Some e ->
  batch_defaults_result env now k entries !! i
  = Some (let e1 := if no_ID e
                    then set_entry_ID
                           (uuid_New env (k + count_no_ID (take i entries))) e
                    else e in
          if time_IsZero (entry_Timestamp e1)
          then set_entry_Timestamp now e1 else e1).
Proof.
  revert k i. induction entries as [|x rest IH]; intros k i Hi; [discriminate|].
  destruct i as [|i]; simpl in *.
  - injection Hi as ->. unfold count_no_ID. simpl. now rewrite Nat.add_0_r.
  - assert (Hidx : ((if no_ID x then S k else k) + count_no_ID (take i rest)
                    = k + count_no_ID (take (S i) (x :: rest)))%nat).
    { unfold count_no_ID. simpl. destruct (no_ID x); simpl; lia. }
    rewrite (IH _ _ Hi), Hidx. reflexivity.
Qed.

Lemma IngestSingle_eq env entry w :
  ingested env entry w
  = (let e1 := if no_ID entry
               then set_entry_ID (uuid_New env (uuid_draws w)) entry else entry in
     if time_IsZero (entry_Timestamp e1)
     then set_entry_Timestamp (clock env (clock_reads w)) e1 else e1) /\
  calls (snd (IngestSingle env entry w))
  = calls w ++ [CallCreate (ingested env entry w)] /\
  spawned (snd (IngestSingle env entry w))
  = spawned w ++ [TaskCheckAlerts (ingested env entry w)] /\
  uuid_draws (snd (IngestSingle env entry w))
  = if no_ID entry then S (uuid_draws w) else uuid_draws w.
Proof.
  unfold ingested, IngestSingle, bind, no_ID.
  rewrite set_ID_default_eq.
  destruct (N.eqb (entry_ID entry) uuid_Nil);
    rewrite set_Timestamp_default_now_eq; cbv zeta;
    destruct (time_IsZero _); unfold LogRepository_Create; run;
    destruct (fault env (length (calls w))); repeat split; reflexivity.
Qed.

Lemma IngestBatch_eq env entries w :
  ingested_batch env entries w
  = batch_defaults_result env (clock env (clock_reads w)) (uuid_draws w) entries /\
  calls (snd (IngestBatch env entries w))
  = match entries with
    | [] => calls w
    | _ :: _ => calls w ++ [CallCreateInBatches (ingested_batch env entries w) 1000]
    end.
Proof.
  unfold ingested_batch, IngestBatch, bind, time_Now. rewrite batch_defaults_eq.
  unfold go, modify, LogRepository_CreateBatch.
  rewrite batch_defaults_result_length.
  destruct entries as [|entry rest]; [split; reflexivity|].
  cbn [length Nat.eqb]. run.
  destruct (fault env (length (calls w))); split; reflexivity.
Qed.

Lemma no_ID_true entry : no_ID entry = true <-> entry_ID entry = uuid_Nil.
Proof. unfold no_ID. apply N.eqb_eq. Qed.

Lemma no_ID_false entry : no_ID entry = false <-> entry_ID entry <> uuid_Nil.
Proof. unfold no_ID. apply N.eqb_neq. Qed.

Lemma time_IsZero_true t : time_IsZero t = true <-> t = 0.
Proof. unfold time_IsZero. apply Z.eqb_eq. Qed.

Lemma time_IsZero_false t : time_IsZero t = false <-> t <> 0.
Proof. unfold time_IsZero. apply Z.eqb_neq. Qed.

(** The defaults on one entry, read field by field. *)
Lemma defaults_fields id now entry :
  let e1 := if no_ID entry then set_entry_ID id entry else entry in
  let e2 := if time_IsZero (entry_Timestamp e1)
            then set_entry_Timestamp now e1 else e1 in
  (entry_ID entry <> uuid_Nil -> entry_ID e2 = entry_ID entry) /\
  (entry_ID entry = uuid_Nil -> entry_ID e2 = id) /\
  (entry_Timestamp entry <> 0 -> entry_Timestamp e2 = entry_Timestamp entry) /\
  (entry_Timestamp entry = 0 -> entry_Timestamp e2 = now).
Proof.
  cbv zeta.
  destruct (no_ID entry) eqn:Hid;
    [apply no_ID_true in Hid | apply no_ID_false in Hid]; simpl;
    (destruct (time_IsZero (entry_Timestamp entry)) eqn:Hts;
     [apply time_IsZero_true in Hts | apply time_IsZero_false in Hts]); simpl;
    repeat split; intros; congruence.
Qed.

Lemma batch_fresh_IDs_differ env now k (entries : list LogEntry) i j ei ej ei' ej' :
  (forall a b, uuid_New env a = uuid_New env b -> a = b) ->
  (i < j)%nat ->
  entries !! i = Some ei -> entries !! j = Some ej ->
  entry_ID ei = uuid_Nil -> entry_ID ej = uuid_Nil ->
  batch_defaults_result env now k entries !! i = Some ei' ->
  batch_defaults_result env now k entries !! j = Some ej' ->
  entry_ID ei' <> entry_ID ej'.
Proof.
  intros Hinj Hij Hi Hj Hni Hnj Hi' Hj'.
  rewrite (batch_defaults_result_lookup _ _ _ _ _ _ Hi) in Hi'.
  rewrite (batch_defaults_result_lookup _ _ _ _ _ _ Hj) in Hj'.
  injection Hi' as <-. injection Hj' as <-.
  rewrite (proj1 (proj2 (defaults_fields _ now ei)) Hni).
  rewrite (proj1 (proj2 (defaults_fields _ now ej)) Hnj).
  intros Heq. apply Hinj in Heq.
  pose proof (count_no_ID_take_S entries i ei Hi (proj2 (no_ID_true ei) Hni)) as HS.
  pose proof (count_no_ID_take_le entries (S i) j Hij) as Hle.
  lia.
Qed.

(** C8.  On both ingestion paths an entry that comes with [uuid.Nil] gets
    the next identifier drawn from [uuid.New()], and an entry that comes with
    the zero time gets the clock reading of the call (for a batch, the one
    reading taken when the call starts); an identifier or a timestamp that
    is present is kept.  The entries so completed are the ones handed to the
    store.  Each identifier is a draw of its own, so with a generator that
    never repeats, the identifiers assigned within a batch are pairwise
    distinct. *)
Theorem Ingest_sets_absent_ID_and_Timestamp env w :
  (forall entry,
     (entry_ID entry <> uuid_Nil ->
      entry_ID (ingested env entry w) = entry_ID entry) /\
     (entry_ID entry = uuid_Nil ->
      entry_ID (ingested env entry w) = uuid_New env (uuid_draws w) /\
      uuid_draws (snd (IngestSingle env entry w)) = S (uuid_draws w)) /\
     (entry_Timestamp entry <> 0 ->
      entry_Timestamp (ingested env entry w) = entry_Timestamp entry) /\
     (entry_Timestamp entry = 0 ->
      entry_Timestamp (ingested env entry w) = clock env (clock_reads w)) /\
     calls (snd (IngestSingle env entry w))
     = calls w ++ [CallCreate (ingested env entry w)]) /\
  (forall entries : list LogEntry,
     length (ingested_batch env entries w) = length entries /\
     (forall i e e',
        entries !! i = Some e ->
        ingested_batch env entries w !! i = Some e' ->
        (entry_ID e <> uuid_Nil -> entry_ID e' = entry_ID e) /\
        (entry_ID e = uuid_Nil ->
         entry_ID e'
         = uuid_New env (uuid_draws w + count_no_ID (take i entries))) /\
        (entry_Timestamp e <> 0 -> entry_Timestamp e' = entry_Timestamp e) /\
        (entry_Timestamp e = 0 ->
         entry_Timestamp e' = clock env (clock_reads w))) /\
     (entries <> [] ->
      calls (snd (IngestBatch env entries w))
      = calls w ++ [CallCreateInBatches (ingested_batch env entries w) 1000])) /\
  ((forall a b, uuid_New env a = uuid_New env b -> a = b) ->
   forall (entries : list LogEntry) i j ei ej ei' ej',
     i <> j ->
     entries !! i = Some ei -> entries !! j = Some ej ->
     entry_ID ei = uuid_Nil -> entry_ID ej = uuid_Nil ->
     ingested_batch env entries w !! i = Some ei' ->
     ingested_batch env entries w !! j = Some ej' ->
     entry_ID ei' <> entry_ID ej').
Proof.
  split; [|split].
  - intros entry.
    destruct (IngestSingle_eq env entry w) as (Heq & Hcalls & _ & Hdraws).
    rewrite Heq.
    destruct (defaults_fields (uuid_New env (uuid_draws w))
                (clock env (clock_reads w)) entry) as (H1 & H2 & H3 & H4).
    split; [exact H1|]. split; [|split; [exact H3|split; [exact H4|]]].
    + intros Hnil. split; [now apply H2|].
      rewrite Hdraws. now rewrite (proj2 (no_ID_true entry) Hnil).
    + rewrite Hcalls, Heq. reflexivity.
  - intros entries. destruct (IngestBatch_eq env entries w) as (Heq & Hcalls).
    split; [|split].
    + rewrite Heq. apply batch_defaults_result_length.
    + intros i e e' Hi Hi'. rewrite Heq in Hi'.
      rewrite (batch_defaults_result_lookup _ _ _ _ _ _ Hi) in Hi'.
      injection Hi' as <-. apply defaults_fields.
    + intros Hne. rewrite Hcalls. destruct entries; [congruence | reflexivity].
  - intros Hinj entries i j ei ej ei' ej' Hij Hi Hj Hni Hnj Hi' Hj'.
    rewrite (proj1 (IngestBatch_eq env entries w)) in Hi', Hj'.
    destruct (Nat.lt_total i j) as [Hlt | [Heq | Hgt]]; [|congruence|].
    + exact (batch_fresh_IDs_differ env _ _ entries i j ei ej ei' ej'
               Hinj Hlt Hi Hj Hni Hnj Hi' Hj').
    + intros Heq. symmetry in Heq. revert Heq.
      exact (batch_fresh_IDs_differ env _ _ entries j i ej ei ej' ei'
               Hinj Hgt Hj Hi Hnj Hni Hj' Hi').
Qed.

Lemma Ingest_sets_absent_ID_and_Timestamp_witness :
  (entry_ID (ingested Sample.env0 Sample.blank_entry Sample.world0)
   = uuid_New Sample.env0 (uuid_draws Sample.world0) /\
   uuid_draws (snd (IngestSingle Sample.env0 Sample.blank_entry Sample.world0))
   = S (uuid_draws Sample.world0)) /\
  entry_Timestamp (ingested Sample.env0 Sample.blank_entry Sample.world0)
  = clock Sample.env0 (clock_reads Sample.world0) /\
  entry_ID (ingested Sample.env0 Sample.quiet_entry Sample.world0)
  = entry_ID Sample.quiet_entry /\
  entry_ID (set_entry_Timestamp Sample.t0 (set_entry_ID 1%N Sample.blank_entry))
  <> entry_ID (set_entry_Timestamp Sample.t0 (set_entry_ID 2%N Sample.blank_entry)).
Proof.
  destruct (Ingest_sets_absent_ID_and_Timestamp Sample.env0 Sample.world0)
    as (Hsingle & Hbatch & Hfresh).
  split; [|split; [|split]].
  - apply (proj1 (proj2 (Hsingle Sample.blank_entry))). reflexivity.
  - apply (proj1 (proj2 (proj2 (proj2 (Hsingle Sample.blank_entry))))).
    reflexivity.
  - apply (proj1 (Hsingle Sample.quiet_entry)). discriminate.
  - apply (Hfresh
             (fun a b H => Nat.succ_inj a b (Nat2N.inj (S a) (S b) H))
             [Sample.blank_entry; Sample.quiet_entry; Sample.blank_entry]
             0%nat 2%nat Sample.blank_entry Sample.blank_entry);
      try reflexivity.
    discriminate.
Defined.

(** * Further properties of the service and the repositories *)

(** ** BufferLog and the flush that follows *)

Lemma defaulted_fields id now entry :
  (entry_ID entry <> uuid_Nil -> entry_ID (defaulted id now entry) = entry_ID entry) /\
  (entry_ID entry = uuid_Nil -> entry_ID (defaulted id now entry) = id) /\
  (entry_Timestamp entry <> 0 ->
   entry_Timestamp (defaulted id now entry) = entry_Timestamp entry) /\
  (entry_Timestamp entry = 0 -> entry_Timestamp (defaulted id now entry) = now).
Proof. exact (defaults_fields id now entry). Qed.

Lemma BufferLog_eq env entry w :
  BufferLog env entry w
  = (tt,
     let e' := defaulted (uuid_New env (uuid_draws w)) (clock env (clock_reads w)) entry in
     let w1 := set_uuid_draws (if no_ID entry then S (uuid_draws w) else uuid_draws w) w in
     let w2 := set_clock_reads
                 (if time_IsZero (entry_Timestamp entry)
                  then S (clock_reads w) else clock_reads w) w1 in
     let w3 := set_buffer (buffer w ++ [e']) w2 in
     if (1000 <=? length (buffer w ++ [e']))%nat
     then set_spawned (spawned w ++ [TaskFlushBuffer]) w3 else w3).
Proof.
  unfold BufferLog, bind, defaulted, no_ID.
  rewrite set_ID_default_eq.
  destruct (N.eqb (entry_ID entry) uuid_Nil);
    rewrite set_Timestamp_default_now_eq; cbn [entry_Timestamp set_entry_ID];
    destruct (time_IsZero (entry_Timestamp entry));
    autounfold with go_unfold; cbv beta iota zeta; world_simpl;
    match goal with
    | |- context [(1000 <=? ?n)%nat] => destruct (1000 <=? n)%nat
    end; destruct w; reflexivity.
Qed.

Lemma BufferLog_frame env entry w :
  buffer (snd (BufferLog env entry w))
  = buffer w ++ [defaulted (uuid_New env (uuid_draws w))
                   (clock env (clock_reads w)) entry] /\
  calls (snd (BufferLog env entry w)) = calls w /\
  log_entries (snd (BufferLog env entry w)) = log_entries w /\
  spawned (snd (BufferLog env entry w))
  = if (1000 <=? S (length (buffer w)))%nat
    then spawned w ++ [TaskFlushBuffer] else spawned w.
Proof.
  rewrite BufferLog_eq. cbv zeta. rewrite length_app, Nat.add_1_r.
  cbn [length]. destruct (1000 <=? S (length (buffer w)))%nat;
    world_simpl; repeat split; reflexivity.
Qed.

(** X1. [BufferLog] appends the entry, with its defaults set, at the end of
    the buffer and touches neither the store nor the table; it starts a
    flush goroutine exactly when the buffer then holds 1000 entries or
    more. *)
Theorem BufferLog_appends_and_schedules env entry w :
  buffer (snd (BufferLog env entry w))
  = buffer w ++ [defaulted (uuid_New env (uuid_draws w))
                   (clock env (clock_reads w)) entry] /\
  calls (snd (BufferLog env entry w)) = calls w /\
  log_entries (snd (BufferLog env entry w)) = log_entries w /\
  ((1000 <= length (buffer (snd (BufferLog env entry w))))%nat ->
   spawned (snd (BufferLog env entry w)) = spawned w ++ [TaskFlushBuffer]) /\
  ((length (buffer (snd (BufferLog env entry w))) < 1000)%nat ->
   spawned (snd (BufferLog env entry w)) = spawned w).
Proof.
  destruct (BufferLog_frame env entry w) as (Hb & Hc & Hl & Hs).
  rewrite Hb, Hc, Hl, Hs, length_app, Nat.add_1_r. cbn [length].
  repeat split; intros Hlen.
  - now rewrite (proj2 (Nat.leb_le _ _) Hlen).
  - destruct (Nat.leb_spec 1000 (S (length (buffer w)))); [lia | reflexivity].
Qed.

Lemma BufferLog_each_frame env entries w :
  exists stored,
    Forall2 (fun e e' => exists id now, e' = defaulted id now e) entries stored /\
    buffer (snd (BufferLog_each env entries w)) = buffer w ++ stored /\
    calls (snd (BufferLog_each env entries w)) = calls w /\
    log_entries (snd (BufferLog_each env entries w)) = log_entries w.
Proof.
  unfold BufferLog_each. revert w.
  induction entries as [|entry rest IH]; intros w.
  - exists []. simpl. rewrite app_nil_r. repeat split. constructor.
  - simpl. unfold bind.
    destruct (BufferLog env entry w) as [u w1] eqn:Hrun.
    pose proof (BufferLog_frame env entry w) as (Hb & Hc & Hl & _).
    rewrite Hrun in Hb, Hc, Hl. simpl in Hb, Hc, Hl.
    destruct (IH w1) as (stored & HF & Hb1 & Hc1 & Hl1).
    exists (defaulted (uuid_New env (uuid_draws w)) (clock env (clock_reads w)) entry
            :: stored).
    split; [constructor; [eauto | exact HF]|].
    rewrite Hb1, Hc1, Hl1, Hb, Hc, Hl, <- app_assoc. repeat split.
Qed.

(** X2. Entries handed to [BufferLog] one after the other sit in the buffer
    in that order, each changed at most by its defaults; the next flush, if
    its store write succeeds, appends the whole buffer to the table in that
    order and a further flush finds nothing to do. *)
Theorem buffered_entries_reach_the_store_in_order env entries w :
  exists stored,
    Forall2 (fun e e' => exists id now, e' = defaulted id now e) entries stored /\
    buffer (snd (BufferLog_each env entries w)) = buffer w ++ stored /\
    (buffer w ++ stored <> [] ->
     fault env (length (calls w)) = None ->
     log_entries (snd (flushBuffer env (snd (BufferLog_each env entries w))))
     = log_entries w ++ buffer w ++ stored /\
     flushBuffer env (snd (flushBuffer env (snd (BufferLog_each env entries w))))
     = (tt, snd (flushBuffer env (snd (BufferLog_each env entries w))))).
Proof.
  destruct (BufferLog_each_frame env entries w) as (stored & HF & Hb & Hc & Hl).
  exists stored. split; [exact HF|]. split; [exact Hb|].
  intros Hne Hf.
  assert (Hne' : buffer (snd (BufferLog_each env entries w)) <> [])
    by now rewrite Hb.
  rewrite (flushBuffer_nonempty _ _ Hne'), Hc, Hf. world_simpl.
  rewrite Hl, Hb. split; [reflexivity|].
  now apply flushBuffer_empty.
Qed.

Lemma buffered_entries_reach_the_store_in_order_witness :
  log_entries (snd (flushBuffer Sample.env0
                      (snd (BufferLog_each Sample.env0
                              [Sample.quiet_entry; Sample.blank_entry] Sample.world0))))
  = [Sample.quiet_entry;
     set_entry_Timestamp Sample.t0 (set_entry_ID 1%N Sample.blank_entry)].
Proof.
  destruct (buffered_entries_reach_the_store_in_order Sample.env0
              [Sample.quiet_entry; Sample.blank_entry] Sample.world0)
    as (stored & HF & Hb & Hflush).
  assert (Hs : stored = [Sample.quiet_entry;
                         set_entry_Timestamp Sample.t0
                           (set_entry_ID 1%N Sample.blank_entry)])
    by (apply (app_inv_head (buffer Sample.world0)); rewrite <- Hb; reflexivity).
  subst stored.
  apply (Hflush ltac:(discriminate) eq_refl).
Defined.

(** ** What ingestion leaves in the store *)

Lemma IngestSingle_store env entry w :
  log_entries (snd (IngestSingle env entry w))
  = match fault env (length (calls w)) with
    | Some _ => log_entries w
    | None => log_entries w ++ [ingested env entry w]
    end.
Proof.
  unfold ingested, IngestSingle, bind.
  rewrite set_ID_default_eq.
  destruct (N.eqb (entry_ID entry) uuid_Nil);
    rewrite set_Timestamp_default_now_eq;
    destruct (time_IsZero _); unfold LogRepository_Create; run;
    destruct (fault env (length (calls w))); reflexivity.
Qed.

Lemma IngestBatch_store env entries w :
  log_entries (snd (IngestBatch env entries w))
  = match entries, fault env (length (calls w)) with
    | _ :: _, None => log_entries w ++ ingested_batch env entries w
    | _, _ => log_entries w
    end /\
  spawned (snd (IngestBatch env entries w))
  = spawned w ++ [TaskCheckAlertsBatch (ingested_batch env entries w)].
Proof.
  unfold ingested_batch, IngestBatch, bind, time_Now. rewrite batch_defaults_eq.
  unfold go, modify, LogRepository_CreateBatch.
  rewrite batch_defaults_result_length.
  destruct entries as [|entry rest]; [split; reflexivity|].
  cbn [length Nat.eqb]. run.
  destruct (fault env (length (calls w))); split; reflexivity.
Qed.

(** X3. Both ingestion paths write all or nothing: when the store call
    fails its error is returned and the table is as before, when it succeeds
    the completed entries are appended in order.  An empty batch makes no
    store call and returns no error.  The alert goroutine is started in
    either case, also for entries the store refused. *)
Theorem Ingest_writes_all_or_nothing env w :
  (forall entry,
     spawned (snd (IngestSingle env entry w))
     = spawned w ++ [TaskCheckAlerts (ingested env entry w)] /\
     (fault env (length (calls w)) = None ->
      snd (fst (IngestSingle env entry w)) = None /\
      log_entries (snd (IngestSingle env entry w))
      = log_entries w ++ [ingested env entry w]) /\
     (forall e, fault env (length (calls w)) = Some e ->
      snd (fst (IngestSingle env entry w)) = Some e /\
      log_entries (snd (IngestSingle env entry w)) = log_entries w)) /\
  (forall entries,
     spawned (snd (IngestBatch env entries w))
     = spawned w ++ [TaskCheckAlertsBatch (ingested_batch env entries w)] /\
     (entries = [] ->
      snd (fst (IngestBatch env entries w)) = None /\
      calls (snd (IngestBatch env entries w)) = calls w /\
      log_entries (snd (IngestBatch env entries w)) = log_entries w) /\
     (entries <> [] -> fault env (length (calls w)) = None ->
      snd (fst (IngestBatch env entries w)) = None /\
      log_entries (snd (IngestBatch env entries w))
      = log_entries w ++ ingested_batch env entries w) /\
     (entries <> [] -> forall e, fault env (length (calls w)) = Some e ->
      snd (fst (IngestBatch env entries w)) = Some e /\
      log_entries (snd (IngestBatch env entries w)) = log_entries w)).
Proof.
  split.
  - intros entry.
    destruct (IngestSingle_eq env entry w) as (_ & _ & Hsp & _).
    rewrite IngestSingle_error, IngestSingle_store.
    split; [exact Hsp|]. split.
    + intros ->. now split.
    + intros e ->. now split.
  - intros entries.
    destruct (IngestBatch_store env entries w) as (Hl & Hsp).
    destruct (IngestBatch_eq env entries w) as (_ & Hc).
    rewrite IngestBatch_error, Hl, Hc.
    split; [exact Hsp|]. split; [|split].
    + intros ->. now repeat split.
    + intros Hne ->. destruct entries; [congruence | now split].
    + intros Hne e ->. destruct entries; [congruence | now split].
Qed.

Lemma Ingest_writes_all_or_nothing_witness :
  (snd (fst (IngestSingle (Sample.env_with (Sample.fault_at 0 (ErrDB 3)) Sample.t0)
               Sample.blank_entry Sample.world0)) = Some (ErrDB 3) /\
   log_entries (snd (IngestSingle (Sample.env_with (Sample.fault_at 0 (ErrDB 3)) Sample.t0)
                       Sample.blank_entry Sample.world0))
   = log_entries Sample.world0) /\
  (snd (fst (IngestBatch Sample.env0 [Sample.quiet_entry; Sample.blank_entry]
               Sample.world0)) = None /\
   log_entries (snd (IngestBatch Sample.env0 [Sample.quiet_entry; Sample.blank_entry]
                       Sample.world0))
   = log_entries Sample.world0
     ++ ingested_batch Sample.env0 [Sample.quiet_entry; Sample.blank_entry]
          Sample.world0).
Proof.
  split.
  - apply (proj2 (proj2 (proj1 (Ingest_writes_all_or_nothing
             (Sample.env_with (Sample.fault_at 0 (ErrDB 3)) Sample.t0)
             Sample.world0) Sample.blank_entry)) (ErrDB 3)).
    reflexivity.
  - apply (proj1 (proj2 (proj2 (proj2 (Ingest_writes_all_or_nothing
             Sample.env0 Sample.world0)
             [Sample.quiet_entry; Sample.blank_entry])))).
    + discriminate.
    + reflexivity.
Defined.

(** ** Which entries of a batch are checked against the alert rules *)

Lemma for_range_filter {A} (p : A -> bool) (f : A -> M unit) (xs : list A) w :
  for_range xs (fun x => if p x then f x else ret tt) w
  = for_range (List.filter p xs) f w.
Proof.
  revert w. induction xs as [|x xs IH]; intros w; simpl; [reflexivity|].
  destruct (p x); simpl; unfold bind.
  - destruct (f x w) as [u w1]. apply IH.
  - unfold ret. apply IH.
Qed.

(** X4. The goroutine of [IngestBatch] evaluates the alert rules once for
    each entry whose level is exactly [ERROR] or [FATAL], in order, and for
    no other entry; a batch without such an entry makes it do nothing.  The
    goroutine of [IngestSingle] evaluates its entry whatever the level. *)
Theorem batch_alerts_only_for_error_and_fatal env w :
  (forall entries,
     run_task env (TaskCheckAlertsBatch entries) w
     = for_range (List.filter is_error_or_fatal entries) (checkAlerts env) w) /\
  (forall entries,
     Forall (fun e => entry_Level e <> LogLevelError /\
                      entry_Level e <> LogLevelFatal) entries ->
     run_task env (TaskCheckAlertsBatch entries) w = (tt, w)) /\
  (forall entry, run_task env (TaskCheckAlerts entry) w = checkAlerts env entry w).
Proof.
  assert (Hrun : forall entries,
            run_task env (TaskCheckAlertsBatch entries) w
            = for_range (List.filter is_error_or_fatal entries) (checkAlerts env) w).
  { intros entries. unfold run_task.
    exact (for_range_filter is_error_or_fatal (checkAlerts env) entries w). }
  split; [exact Hrun|]. split; [|reflexivity].
  intros entries Hall. rewrite Hrun.
  replace (List.filter is_error_or_fatal entries) with (@nil LogEntry);
    [reflexivity|].
  induction Hall as [|e rest [He Hf] _ IH]; [reflexivity|].
  simpl. unfold is_error_or_fatal at 1.
  now rewrite (proj2 (String.eqb_neq _ _) He), (proj2 (String.eqb_neq _ _) Hf).
Qed.

Lemma batch_alerts_only_for_error_and_fatal_witness :
  run_task Sample.env0
    (TaskCheckAlertsBatch [Sample.quiet_entry;
                           Sample.entry_at 5%N Sample.tenantA "error" Sample.t0])
    Sample.two_rules_world
  = (tt, Sample.two_rules_world).
Proof.
  apply (proj1 (proj2 (batch_alerts_only_for_error_and_fatal Sample.env0
                         Sample.two_rules_world))).
  repeat constructor; discriminate.
Defined.

(** ** Which rules an evaluation triggers, and what it leaves alone *)

Lemma forget_LastTriggered_update id t (rules : list LogAlert) :
  map (set_alert_LastTriggered None)
    (map (fun a => if N.eqb (alert_ID a) id
                   then set_alert_LastTriggered (Some t) a else a) rules)
  = map (set_alert_LastTriggered None) rules.
Proof.
  induction rules as [|a rules IH]; simpl; [reflexivity|].
  rewrite IH. f_equal. now destruct (N.eqb (alert_ID a) id).
Qed.

(** One call of [triggerAlert]: it fires or it does not, and apart from the
    clock it changes nothing but [last_triggered]. *)
Lemma triggerAlert_effect env alert entry w :
  exists fired : bool,
    calls (snd (triggerAlert env alert entry w))
    = calls w ++ (if fired then [CallUpdateLastTriggered (alert_ID alert)] else []) /\
    stdout (snd (triggerAlert env alert entry w))
    = stdout w ++ (if fired
                   then [OutAlertTriggered (alert_Name alert) (entry_Message entry)]
                   else []) /\
    map (set_alert_LastTriggered None) (log_alerts (snd (triggerAlert env alert entry w)))
    = map (set_alert_LastTriggered None) (log_alerts w) /\
    log_entries (snd (triggerAlert env alert entry w)) = log_entries w /\
    log_retention_policies (snd (triggerAlert env alert entry w))
    = log_retention_policies w /\
    redis_data (snd (triggerAlert env alert entry w)) = redis_data w /\
    buffer (snd (triggerAlert env alert entry w)) = buffer w /\
    spawned (snd (triggerAlert env alert entry w)) = spawned w.
Proof.
  unfold triggerAlert, AlertRepository_UpdateLastTriggered.
  destruct (alert_LastTriggered alert) as [last|];
    autounfold with go_unfold; cbv beta iota;
    [destruct (time_Sub (clock env (clock_reads w)) last <? Minute)|];
    world_simpl;
    try (exists false; world_simpl; rewrite !app_nil_r; repeat split; reflexivity);
    (exists true; destruct (fault env (length (calls w))); world_simpl;
     rewrite ?forget_LastTriggered_update; repeat split; reflexivity).
Qed.

Lemma checkAlerts_rule_effect env entry alert w :
  exists fired : list LogAlert,
    (fired = [] \/ (fired = [alert] /\ matchesAlert env entry alert = true)) /\
    calls (snd (checkAlerts_rule env entry alert w))
    = calls w ++ map (fun a => CallUpdateLastTriggered (alert_ID a)) fired /\
    stdout (snd (checkAlerts_rule env entry alert w))
    = stdout w
      ++ map (fun a => OutAlertTriggered (alert_Name a) (entry_Message entry)) fired /\
    map (set_alert_LastTriggered None)
      (log_alerts (snd (checkAlerts_rule env entry alert w)))
    = map (set_alert_LastTriggered None) (log_alerts w) /\
    log_entries (snd (checkAlerts_rule env entry alert w)) = log_entries w /\
    log_retention_policies (snd (checkAlerts_rule env entry alert w))
    = log_retention_policies w /\
    redis_data (snd (checkAlerts_rule env entry alert w)) = redis_data w /\
    buffer (snd (checkAlerts_rule env entry alert w)) = buffer w /\
    spawned (snd (checkAlerts_rule env entry alert w)) = spawned w.
Proof.
  unfold checkAlerts_rule. destruct (matchesAlert env entry alert) eqn:Hm.
  - destruct (triggerAlert_effect env alert entry w)
      as ([|] & Hc & Hs & Ha & Hrest).
    + exists [alert]. split; [right; now split|]. now repeat split.
    + exists []. split; [now left|]. now repeat split.
  - exists []. split; [now left|]. unfold ret. simpl.
    rewrite !app_nil_r. now repeat split.
Qed.

Lemma checkAlerts_loop_effect env entry (rules : list LogAlert) w :
  exists fired : list LogAlert,
    sublist fired rules /\
    Forall (fun a => matchesAlert env entry a = true) fired /\
    calls (snd (for_range rules (checkAlerts_rule env entry) w))
    = calls w ++ map (fun a => CallUpdateLastTriggered (alert_ID a)) fired /\
    stdout (snd (for_range rules (checkAlerts_rule env entry) w))
    = stdout w
      ++ map (fun a => OutAlertTriggered (alert_Name a) (entry_Message entry)) fired /\
    map (set_alert_LastTriggered None)
      (log_alerts (snd (for_range rules (checkAlerts_rule env entry) w)))
    = map (set_alert_LastTriggered None) (log_alerts w) /\
    log_entries (snd (for_range rules (checkAlerts_rule env entry) w)) = log_entries w /\
    log_retention_policies (snd (for_range rules (checkAlerts_rule env entry) w))
    = log_retention_policies w /\
    redis_data (snd (for_range rules (checkAlerts_rule env entry) w)) = redis_data w /\
    buffer (snd (for_range rules (checkAlerts_rule env entry) w)) = buffer w /\
    spawned (snd (for_range rules (checkAlerts_rule env entry) w)) = spawned w.
Proof.
  revert w. induction rules as [|alert rules IH]; intros w.
  - exists []. simpl. rewrite !app_nil_r. repeat split; constructor.
  - simpl. unfold bind.
    destruct (checkAlerts_rule_effect env entry alert w)
      as (f1 & Hf1 & Hc1 & Hs1 & Ha1 & Hl1 & Hp1 & Hr1 & Hb1 & Hsp1).
    destruct (checkAlerts_rule env entry alert w) as [u w1]. simpl in *.
    destruct (IH w1) as (f2 & Hsub & Hall & Hc2 & Hs2 & Ha2 & Hl2 & Hp2 & Hr2 & Hb2 & Hsp2).
    exists (f1 ++ f2).
    rewrite Hc2, Hs2, Ha2, Hl2, Hp2, Hr2, Hb2, Hsp2,
            Hc1, Hs1, Ha1, Hl1, Hp1, Hr1, Hb1, Hsp1, !map_app, <- !app_assoc.
    split; [|split; [|repeat split]].
    + destruct Hf1 as [-> | [-> _]]; simpl;
        [now apply sublist_cons | now apply sublist_skip].
    + destruct Hf1 as [-> | [-> Hm]]; simpl; [exact Hall | now constructor].
Qed.

(** X5. When the rules load, one evaluation triggers a subsequence of the
    enabled rules of the table: each triggered rule is enabled and matches
    the entry, no rule is triggered twice over, and there is exactly one
    [UpdateLastTriggered] call and one notification per triggered rule, in
    the order of the table.  A disabled rule is never triggered. *)
Theorem checkAlerts_triggers_only_enabled_matching_rules env entry w :
  fault env (length (calls w)) = None ->
  exists fired : list LogAlert,
    sublist fired (List.filter alert_Enabled (log_alerts w)) /\
    Forall (fun a => alert_Enabled a = true /\ matchesAlert env entry a = true) fired /\
    calls (snd (checkAlerts env entry w))
    = calls w ++ CallFindEnabled
        :: map (fun a => CallUpdateLastTriggered (alert_ID a)) fired /\
    stdout (snd (checkAlerts env entry w))
    = stdout w
      ++ map (fun a => OutAlertTriggered (alert_Name a) (entry_Message entry)) fired.
Proof.
  intros Hf. rewrite (checkAlerts_loaded _ _ _ Hf).
  destruct (checkAlerts_loop_effect env entry
              (List.filter alert_Enabled (log_alerts w))
              (set_calls (calls w ++ [CallFindEnabled]) w))
    as (fired & Hsub & Hall & Hc & Hs & _).
  exists fired. split; [exact Hsub|]. split; [|split].
  - apply Forall_forall. intros a Ha. split.
    + pose proof (elem_of_sublist _ _ _ Ha Hsub) as Hin.
      apply list_elem_of_In, filter_In in Hin. tauto.
    + revert a Ha. now apply Forall_forall.
  - rewrite Hc. world_simpl. now rewrite <- app_assoc.
  - exact Hs.
Qed.

Lemma checkAlerts_triggers_only_enabled_matching_rules_witness :
  exists fired : list LogAlert,
    sublist fired (List.filter alert_Enabled (log_alerts Sample.two_rules_world)) /\
    Forall (fun a => alert_Enabled a = true
                     /\ matchesAlert Sample.env0 Sample.quiet_entry a = true) fired /\
    calls (snd (checkAlerts Sample.env0 Sample.quiet_entry Sample.two_rules_world))
    = calls Sample.two_rules_world ++ CallFindEnabled
        :: map (fun a => CallUpdateLastTriggered (alert_ID a)) fired /\
    stdout (snd (checkAlerts Sample.env0 Sample.quiet_entry Sample.two_rules_world))
    = stdout Sample.two_rules_world
      ++ map (fun a => OutAlertTriggered (alert_Name a)
                         (entry_Message Sample.quiet_entry)) fired.
Proof.
  apply (checkAlerts_triggers_only_enabled_matching_rules Sample.env0
           Sample.quiet_entry Sample.two_rules_world).
  reflexivity.
Defined.


Lemma triggerAlert_fired_table env alert entry w :
  alert_LastTriggered alert = None \/
  (exists last, alert_LastTriggered alert = Some last /\
                Minute <= clock env (clock_reads w) - last) ->
  fault env (length (calls w)) = None ->
  log_alerts (snd (triggerAlert env alert entry w))
  = map (fun a => if N.eqb (alert_ID a) (alert_ID alert)
                  then set_alert_LastTriggered
                         (Some (db_now env (length (calls w)))) a
                  else a) (log_alerts w).
Proof.
  intros Harmed Hf.
  assert (Hupd : forall w0,
            calls w0 = calls w -> stdout w0 = stdout w ->
            log_alerts w0 = log_alerts w ->
            log_alerts (snd ((AlertRepository_UpdateLastTriggered env (alert_ID alert) ;;
                              printf (OutAlertTriggered (alert_Name alert)
                                        (entry_Message entry))) w0))
            = map (fun a => if N.eqb (alert_ID a) (alert_ID alert)
                            then set_alert_LastTriggered
                                   (Some (db_now env (length (calls w)))) a
                            else a) (log_alerts w)).
  { intros w0 Hc Hs Ha.
    destruct (update_then_notify env (alert_ID alert) (alert_Name alert)
                (entry_Message entry) w0 w Hc Hs Ha) as (_ & _ & Htab).
    now rewrite Hf in Htab. }
  destruct Harmed as [Hnone | (last & Hlast & Hge)].
  - rewrite (triggerAlert_armed _ _ _ _ Hnone). now apply Hupd.
  - rewrite (triggerAlert_elapsed _ _ _ _ _ Hlast Hge). now apply Hupd.
Qed.

(** X7. Once a rule was triggered and its [UpdateLastTriggered] succeeded,
    any copy of that rule read from the table afterwards is dropped by
    [triggerAlert] as long as the service's clock is less than 60 seconds
    past the time the store wrote: no call, no notification. *)
Theorem triggered_rule_is_dropped_for_the_next_minute env alert entry w :
  alert_LastTriggered alert = None \/
  (exists last, alert_LastTriggered alert = Some last /\
                Minute <= clock env (clock_reads w) - last) ->
  fault env (length (calls w)) = None ->
  forall alert' entry',
    In alert' (log_alerts (snd (triggerAlert env alert entry w))) ->
    alert_ID alert' = alert_ID alert ->
    clock env (clock_reads (snd (triggerAlert env alert entry w)))
    - db_now env (length (calls w)) < Minute ->
    triggerAlert env alert' entry' (snd (triggerAlert env alert entry w))
    = (tt, set_clock_reads
             (S (clock_reads (snd (triggerAlert env alert entry w))))
             (snd (triggerAlert env alert entry w))).
Proof.
  intros Harmed Hf alert' entry' Hin Hid Hclock.
  rewrite (triggerAlert_fired_table _ _ _ _ Harmed Hf) in Hin.
  apply in_map_iff in Hin. destruct Hin as (a & Ha & _).
  apply triggerAlert_limited with (last := db_now env (length (calls w)));
    [|exact Hclock].
  destruct (N.eqb_spec (alert_ID a) (alert_ID alert)) as [Heq|Hne].
  - now subst alert'.
  - subst alert'. congruence.
Qed.

Lemma triggered_rule_is_dropped_for_the_next_minute_witness :
  triggerAlert Sample.env0
    (set_alert_LastTriggered (Some Sample.t0) Sample.catch_all_rule)
    Sample.blank_entry
    (snd (triggerAlert Sample.env0 Sample.catch_all_rule Sample.quiet_entry
            (Sample.with_alerts [Sample.catch_all_rule])))
  = (tt, set_clock_reads 1
           (snd (triggerAlert Sample.env0 Sample.catch_all_rule Sample.quiet_entry
                   (Sample.with_alerts [Sample.catch_all_rule])))).
Proof.
  apply (triggered_rule_is_dropped_for_the_next_minute Sample.env0
           Sample.catch_all_rule Sample.quiet_entry
           (Sample.with_alerts [Sample.catch_all_rule])).
  - left. reflexivity.
  - reflexivity.
  - left. reflexivity.
  - reflexivity.
  - vm_compute. reflexivity.
Defined.

(** ** The rows LogRepository.Query returns *)

Lemma insert_desc_Permutation e sorted : Permutation (insert_desc e sorted) (e :: sorted).
Proof.
  induction sorted as [|x rest IH]; simpl; [reflexivity|].
  destruct (entry_Timestamp x <? entry_Timestamp e); [reflexivity|].
  rewrite IH. apply perm_swap.
Qed.

Lemma order_timestamp_desc_Permutation rows :
  Permutation (order_timestamp_desc rows) rows.
Proof.
  unfold order_timestamp_desc. induction rows as [|e rows IH]; simpl; [reflexivity|].
  rewrite insert_desc_Permutation. now constructor.
Qed.

Lemma insert_desc_sorted e sorted :
  StronglySorted newer_or_equal sorted ->
  StronglySorted newer_or_equal (insert_desc e sorted).
Proof.
  induction 1 as [|x rest Hs IH Hall]; simpl; [repeat constructor|].
  destruct (Z.ltb_spec (entry_Timestamp x) (entry_Timestamp e)) as [Hlt|Hge].
  - constructor; [now constructor|]. constructor; [unfold newer_or_equal; lia|].
    eapply List.Forall_impl; [|exact Hall]. unfold newer_or_equal. intros a Ha. lia.
  - constructor; [exact IH|].
    rewrite insert_desc_Permutation. constructor; [exact Hge | exact Hall].
Qed.

Lemma order_timestamp_desc_sorted rows :
  StronglySorted newer_or_equal (order_timestamp_desc rows).
Proof.
  unfold order_timestamp_desc. induction rows as [|e rows IH]; simpl;
    [constructor | now apply insert_desc_sorted].
Qed.

Lemma page_sorted offset limit rows :
  StronglySorted newer_or_equal rows ->
  StronglySorted newer_or_equal (sql_limit limit (sql_offset offset rows)).
Proof.
  intros Hs. unfold sql_limit, sql_offset.
  rewrite <- (take_drop (Z.to_nat offset) rows) in Hs.
  apply StronglySorted_app_1_r in Hs.
  rewrite <- (take_drop (Z.to_nat limit) (drop (Z.to_nat offset) rows)) in Hs.
  now apply StronglySorted_app_1_l in Hs.
Qed.

Lemma page_In offset limit rows e :
  In e (sql_limit limit (sql_offset offset rows)) -> In e rows.
Proof.
  unfold sql_limit, sql_offset. intros Hin.
  apply list_elem_of_In in Hin. apply list_elem_of_In.
  eapply elem_of_sublist; [exact Hin|].
  etransitivity; [apply sublist_take | apply sublist_drop].
Qed.

Lemma effective_pageSize_bounds filter : 1 <= effective_pageSize filter <= 1000.
Proof.
  unfold effective_pageSize.
  destruct (Z.ltb_spec (filter_PageSize filter) 1);
    destruct (Z.ltb_spec 1000 (filter_PageSize filter)); simpl; lia.
Qed.

(** The query, when both of its statements succeed. *)
Lemma LogRepository_Query_success env filter w :
  fault env (length (calls w)) = None ->
  fault env (S (length (calls w))) = None ->
  LogRepository_Query env filter w
  = ((sql_limit (effective_pageSize filter)
        (sql_offset (wrap64 ((effective_page filter - 1) * effective_pageSize filter))
           (order_timestamp_desc
              (List.filter (selects (buildQuery env filter)) (log_entries w)))),
      Z.of_nat (length (List.filter (selects (buildQuery env filter)) (log_entries w))),
      None),
     set_calls
       (calls w ++ [CallCount filter;
                    CallFind filter
                      (wrap64 ((effective_page filter - 1) * effective_pageSize filter))
                      (effective_pageSize filter)]) w).
Proof.
  intros Hf1 Hf2. unfold LogRepository_Query, effective_page, effective_pageSize.
  autounfold with go_unfold. cbv beta iota zeta. rewrite Hf1. cbv beta iota.
  world_simpl. rewrite length_app, Nat.add_1_r. cbn [length]. rewrite Hf2.
  cbv beta iota. world_simpl. rewrite <- app_assoc. reflexivity.
Qed.

(** X8. When both statements of [LogRepository.Query] succeed, the total is
    the number of rows the filter selects; the page holds at most the
    effective page size of rows (the requested size if it lies in 1..1000,
    else 100), never more than the total; every row of the page is a row of
    the table that the filter selects; the page is ordered newest first; and
    a page number below 1 gives the first rows, as many as the page size and
    the total allow. *)
Theorem LogRepository_Query_page env filter w :
  fault env (length (calls w)) = None ->
  fault env (S (length (calls w))) = None ->
  exists entries total,
    fst (LogRepository_Query env filter w) = (entries, total, None) /\
    total = Z.of_nat (length (List.filter (selects (buildQuery env filter))
                                (log_entries w))) /\
    Z.of_nat (length entries) <= effective_pageSize filter <= 1000 /\
    Z.of_nat (length entries) <= total /\
    (forall e, In e entries ->
               In e (log_entries w) /\ selects (buildQuery env filter) e = true) /\
    StronglySorted newer_or_equal entries /\
    (filter_Page filter <= 1 ->
     Z.of_nat (length entries) = Z.min (effective_pageSize filter) total).
Proof.
  intros Hf1 Hf2. rewrite (LogRepository_Query_success _ _ _ Hf1 Hf2).
  eexists _, _. split; [reflexivity|]. split; [reflexivity|].
  pose proof (effective_pageSize_bounds filter) as Hps.
  pose proof (Permutation_length
                (order_timestamp_desc_Permutation
                   (List.filter (selects (buildQuery env filter)) (log_entries w))))
    as Hlen.
  unfold sql_limit, sql_offset. rewrite length_take, length_drop, Hlen.
  split; [lia|]. split; [lia|]. split; [|split].
  - intros e Hin. apply (page_In _ _ _ e) in Hin.
    apply (Permutation_in _ (order_timestamp_desc_Permutation _)) in Hin.
    now apply filter_In in Hin.
  - apply page_sorted, order_timestamp_desc_sorted.
  - intros Hpage.
    assert (Hp1 : effective_page filter = 1).
    { unfold effective_page. destruct (Z.ltb_spec (filter_Page filter) 1); lia. }
    rewrite Hp1. replace ((1 - 1) * effective_pageSize filter) with 0 by lia.
    change (wrap64 0) with 0. change (Z.to_nat 0) with 0%nat. lia.
Qed.

Lemma LogRepository_Query_page_witness :
  exists entries total,
    fst (LogRepository_Query Sample.env0 Sample.zero_filter
           (Sample.with_logs [Sample.entryA_90d; Sample.entryB_10d; Sample.entryA_40d]))
    = (entries, total, None) /\
    total = 3 /\
    Z.of_nat (length entries) <= 100 <= 1000 /\
    Z.of_nat (length entries) <= total /\
    (forall e, In e entries ->
               In e [Sample.entryA_90d; Sample.entryB_10d; Sample.entryA_40d] /\
               selects (buildQuery Sample.env0 Sample.zero_filter) e = true) /\
    StronglySorted newer_or_equal entries /\
    (filter_Page Sample.zero_filter <= 1 -> Z.of_nat (length entries) = Z.min 100 total).
Proof.
  apply (LogRepository_Query_page Sample.env0 Sample.zero_filter
           (Sample.with_logs [Sample.entryA_90d; Sample.entryB_10d; Sample.entryA_40d]));
    reflexivity.
Defined.

(** ** The cache key *)

Lemma unhex_hex_pair c rest :
  unhex (String (hex_digit (N_of_ascii c / 16))
           (String (hex_digit (N_of_ascii c mod 16)) rest))
  = String c (unhex rest).
Proof.
  cbn [unhex]. f_equal.
  destruct c as [[] [] [] [] [] [] [] []]; reflexivity.
Qed.

Lemma unhex_sprintf_x data : unhex (sprintf_x data) = data.
Proof.
  induction data as [|c rest IH]; [reflexivity|].
  cbn [sprintf_x]. cbv zeta. now rewrite unhex_hex_pair, IH.
Qed.

Lemma sprintf_x_length data :
  String.length (sprintf_x data) = (2 * String.length data)%nat.
Proof.
  induction data as [|c rest IH]; [reflexivity|].
  cbn [sprintf_x String.length]. cbv zeta. cbn [String.length]. lia.
Qed.

Lemma string_length_app (s t : string) :
  String.length (s +:+ t) = (String.length s + String.length t)%nat.
Proof. induction s as [|c s IH]; simpl; [reflexivity | now rewrite IH]. Qed.

Lemma string_app_inv_head (prefix s t : string) :
  prefix +:+ s = prefix +:+ t -> s = t.
Proof.
  induction prefix as [|c prefix IH]; simpl; [easy|].
  intros Heq. injection Heq as Heq. now apply IH.
Qed.

(** X9. The bytes of the serialised filter can be read back from the cache
    key, so two filters get the same key exactly when their serialisations
    are the same bytes; the key is the prefix [log_query:] followed by two
    hexadecimal digits per byte. *)
Theorem buildCacheKey_injective env :
  (forall filter,
     buildCacheKey env filter
     = ("log_query:" ++ sprintf_x (json_Marshal_LogFilter env filter))%string /\
     unhex (sprintf_x (json_Marshal_LogFilter env filter))
     = json_Marshal_LogFilter env filter /\
     String.length (buildCacheKey env filter)
     = (10 + 2 * String.length (json_Marshal_LogFilter env filter))%nat) /\
  (forall f1 f2,
     buildCacheKey env f1 = buildCacheKey env f2 <->
     json_Marshal_LogFilter env f1 = json_Marshal_LogFilter env f2).
Proof.
  split.
  - intros filter. split; [reflexivity|]. split; [apply unhex_sprintf_x|].
    unfold buildCacheKey. rewrite string_length_app, sprintf_x_length.
    reflexivity.
  - intros f1 f2. unfold buildCacheKey. split.
    + intros Heq. apply string_app_inv_head in Heq.
      rewrite <- (unhex_sprintf_x (json_Marshal_LogFilter env f1)),
              <- (unhex_sprintf_x (json_Marshal_LogFilter env f2)).
      now rewrite Heq.
    + now intros ->.
Qed.

(** ** Cache hits *)

Lemma Query_hit env svc filter w data ttl result :
  svc_redis svc = true ->
  fault env (length (calls w)) = None ->
  redis_data w !! buildCacheKey env filter = Some (data, ttl) ->
  json_Unmarshal_LogQueryResult env data = Some result ->
  Query env svc filter w
  = ((Some result, None),
     set_calls (calls w ++ [CallRedisGet (buildCacheKey env filter)]) w).
Proof.
  intros Hr Hf Hkey Hdec. rewrite Query_eq. unfold cache_read.
  rewrite getCachedResult_eq, Hr, Hf, Hkey, Hdec. reflexivity.
Qed.

(** X10. When the key is in the cache, the [Get] succeeds and the data
    decodes, [Query] answers with the decoded result after that single call:
    the store is not queried and nothing is written, whatever the table
    holds by then. *)
Theorem Query_cache_hit env svc filter w data ttl result :
  svc_redis svc = true ->
  fault env (length (calls w)) = None ->
  redis_data w !! buildCacheKey env filter = Some (data, ttl) ->
  json_Unmarshal_LogQueryResult env data = Some result ->
  Query env svc filter w
  = ((Some result, None),
     set_calls (calls w ++ [CallRedisGet (buildCacheKey env filter)]) w) /\
  log_entries (snd (Query env svc filter w)) = log_entries w /\
  redis_data (snd (Query env svc filter w)) = redis_data w.
Proof.
  intros Hr Hf Hkey Hdec.
  rewrite (Query_hit _ _ _ _ _ _ _ Hr Hf Hkey Hdec). now repeat split.
Qed.

Lemma Query_cache_hit_witness :
  Query Sample.env0 Sample.svc0 Sample.zero_filter Cases.cached_world
  = ((Some Sample.empty_result, None),
     set_calls
       (calls Cases.cached_world
        ++ [CallRedisGet (buildCacheKey Sample.env0 Sample.zero_filter)])
       Cases.cached_world) /\
  log_entries (snd (Query Sample.env0 Sample.svc0 Sample.zero_filter Cases.cached_world))
  = log_entries Cases.cached_world /\
  redis_data (snd (Query Sample.env0 Sample.svc0 Sample.zero_filter Cases.cached_world))
  = redis_data Cases.cached_world.
Proof.
  apply (Query_cache_hit Sample.env0 Sample.svc0 Sample.zero_filter
           Cases.cached_world Sample.empty_result_json (30 * Second)
           Sample.empty_result);
    reflexivity.
Defined.





(** ** DeleteOlderThan *)

Lemma filter_sublist {A} (p : A -> bool) (l : list A) : sublist (List.filter p l) l.
Proof.
  induction l as [|x l IH]; simpl; [constructor|].
  destruct (p x); [now apply sublist_skip | now apply sublist_cons].
Qed.

Lemma filter_split_length {A} (p : A -> bool) (l : list A) :
  (length (List.filter p l) + length (List.filter (fun x => negb (p x)) l)
   = length l)%nat.
Proof.
  induction l as [|x l IH]; simpl; [reflexivity|].
  destruct (p x); simpl; lia.
Qed.

Lemma filter_after_negb_filter {A} (p : A -> bool) (l : list A) :
  List.filter p (List.filter (fun x => negb (p x)) l) = [].
Proof.
  induction l as [|x l IH]; simpl; [reflexivity|].
  destruct (p x) eqn:Hp; simpl; [exact IH | now rewrite Hp].
Qed.

Lemma filter_twice {A} (q : A -> bool) (l : list A) :
  List.filter q (List.filter q l) = List.filter q l.
Proof.
  induction l as [|x l IH]; simpl; [reflexivity|].
  destruct (q x) eqn:Hq; simpl; [now rewrite Hq, IH | exact IH].
Qed.

(** X12. A [DeleteOlderThan] that succeeds removes exactly the rows stamped
    strictly before the cutoff (of the given tenant, or of every tenant when
    none is given), keeps the other rows in their order, and returns the
    number of rows removed; run again with the same arguments it removes
    nothing and returns 0.  A [DeleteOlderThan] that fails returns 0 with
    the error and leaves the table as it was. *)
Theorem DeleteOlderThan_exact env tenantID before w :
  (fault env (length (calls w)) = None ->
   snd (fst (LogRepository_DeleteOlderThan env tenantID before w)) = None /\
   fst (fst (LogRepository_DeleteOlderThan env tenantID before w))
   = Z.of_nat (length (log_entries w))
     - Z.of_nat (length (log_entries
                           (snd (LogRepository_DeleteOlderThan env tenantID before w)))) /\
   sublist (log_entries (snd (LogRepository_DeleteOlderThan env tenantID before w)))
     (log_entries w) /\
   (forall e,
      In e (log_entries (snd (LogRepository_DeleteOlderThan env tenantID before w))) <->
      In e (log_entries w) /\
      ~ (entry_Timestamp e < before /\
         forall t, tenantID = Some t -> entry_TenantID e = t)) /\
   (fault env (S (length (calls w))) = None ->
    fst (LogRepository_DeleteOlderThan env tenantID before
           (snd (LogRepository_DeleteOlderThan env tenantID before w)))
    = (0, None) /\
    log_entries (snd (LogRepository_DeleteOlderThan env tenantID before
                        (snd (LogRepository_DeleteOlderThan env tenantID before w))))
    = log_entries (snd (LogRepository_DeleteOlderThan env tenantID before w)))) /\
  (forall err, fault env (length (calls w)) = Some err ->
   fst (LogRepository_DeleteOlderThan env tenantID before w) = (0, Some err) /\
   log_entries (snd (LogRepository_DeleteOlderThan env tenantID before w))
   = log_entries w).
Proof.
  split.
  - intros Hf. rewrite DeleteOlderThan_eq, Hf. world_simpl.
    split; [reflexivity|]. split; [|split; [|split]].
    + pose proof (filter_split_length (selects (older_than tenantID before))
                    (log_entries w)). lia.
    + apply filter_sublist.
    + intros e. rewrite filter_In, selects_older_than.
      destruct (Z.ltb_spec (entry_Timestamp e) before) as [Hlt|Hge]; simpl.
      * destruct tenantID as [t|].
        -- destruct (N.eqb_spec (entry_TenantID e) t) as [Ht|Ht]; simpl.
           ++ split; [intros [_ Hd]; discriminate|].
              intros [_ Hn]. exfalso. apply Hn. split; [exact Hlt|].
              now intros t' [= <-].
           ++ split; [|tauto]. intros [Hin _]. split; [exact Hin|].
              intros [_ Hall]. apply Ht. now apply Hall.
        -- split; [intros [_ Hd]; discriminate|].
           intros [_ Hn]. exfalso. apply Hn. split; [exact Hlt | discriminate].
      * split; [|tauto]. intros [Hin _]. split; [exact Hin | lia].
    + intros Hf2. rewrite DeleteOlderThan_eq. world_simpl.
      rewrite length_app, Nat.add_1_r, Hf2. world_simpl.
      rewrite filter_after_negb_filter, filter_twice. now split.
  - intros err Hf. rewrite DeleteOlderThan_eq, Hf. now split.
Qed.

Lemma DeleteOlderThan_exact_witness :
  fst (LogRepository_DeleteOlderThan Sample.env0 (Some Sample.tenantA)
         (Sample.t0 - 60 * Sample.day) (Sample.with_logs Cases.three_entries))
  = (1, None) /\
  log_entries (snd (LogRepository_DeleteOlderThan Sample.env0 (Some Sample.tenantA)
                      (Sample.t0 - 60 * Sample.day)
                      (Sample.with_logs Cases.three_entries)))
  = [Sample.entryB_10d; Sample.entryA_40d] /\
  fst (LogRepository_DeleteOlderThan
         (Sample.env_with (Sample.fault_at 0 (ErrDB 9)) Sample.t0) None Sample.t0
         (Sample.with_logs Cases.three_entries))
  = (0, Some (ErrDB 9)).
Proof.
  destruct (DeleteOlderThan_exact Sample.env0 (Some Sample.tenantA)
              (Sample.t0 - 60 * Sample.day) (Sample.with_logs Cases.three_entries))
    as (Hok & _).
  destruct (Hok eq_refl) as (Herr & Hcount & _).
  destruct (DeleteOlderThan_exact
              (Sample.env_with (Sample.fault_at 0 (ErrDB 9)) Sample.t0) None Sample.t0
              (Sample.with_logs Cases.three_entries)) as (_ & Hfail).
  split; [|split].
  - rewrite (surjective_pairing (fst _)), Herr, Hcount. reflexivity.
  - reflexivity.
  - apply (Hfail (ErrDB 9)). reflexivity.
Defined.

(** ** Cleanup as a whole *)

Lemma cleanup_policy_step env policy w :
  calls (snd (cleanup_policy env policy w))
  = calls w ++ [policy_delete env (clock_reads w) 0 policy] /\
  clock_reads (snd (cleanup_policy env policy w)) = S (clock_reads w) /\
  log_entries (snd (cleanup_policy env policy w))
  = match fault env (length (calls w)) with
    | Some _ => log_entries w
    | None =>
        List.filter
          (fun e => negb (selects
                            (older_than (Some (retention_TenantID policy))
                               (time_AddDate_days (clock env (clock_reads w))
                                  (wrap64 (- retention_RetentionDays policy)))) e))
          (log_entries w)
    end /\
  log_alerts (snd (cleanup_policy env policy w)) = log_alerts w /\
  log_retention_policies (snd (cleanup_policy env policy w))
  = log_retention_policies w /\
  redis_data (snd (cleanup_policy env policy w)) = redis_data w /\
  buffer (snd (cleanup_policy env policy w)) = buffer w /\
  spawned (snd (cleanup_policy env policy w)) = spawned w.
Proof.
  unfold cleanup_policy, policy_delete. autounfold with go_unfold.
  cbv beta iota. rewrite DeleteOlderThan_eq. world_simpl.
  rewrite Nat.add_0_r.
  destruct (fault env (length (calls w))); world_simpl; repeat split; reflexivity.
Qed.

Lemma cleanup_policies_loop env (policies : list LogRetention) w :
  calls (snd (for_range policies (cleanup_policy env) w))
  = calls w ++ imap (policy_delete env (clock_reads w)) policies /\
  clock_reads (snd (for_range policies (cleanup_policy env) w))
  = (clock_reads w + length policies)%nat /\
  sublist (log_entries (snd (for_range policies (cleanup_policy env) w)))
    (log_entries w) /\
  (forall e,
     ~ In (entry_TenantID e) (map retention_TenantID policies) ->
     In e (log_entries (snd (for_range policies (cleanup_policy env) w))) <->
     In e (log_entries w)) /\
  log_alerts (snd (for_range policies (cleanup_policy env) w)) = log_alerts w /\
  log_retention_policies (snd (for_range policies (cleanup_policy env) w))
  = log_retention_policies w /\
  redis_data (snd (for_range policies (cleanup_policy env) w)) = redis_data w /\
  buffer (snd (for_range policies (cleanup_policy env) w)) = buffer w /\
  spawned (snd (for_range policies (cleanup_policy env) w)) = spawned w.
Proof.
  revert w. induction policies as [|policy rest IH]; intros w.
  - simpl. rewrite app_nil_r, Nat.add_0_r. repeat split; auto.
  - simpl. unfold bind.
    destruct (cleanup_policy_step env policy w)
      as (Hc1 & Hk1 & Hl1 & Ha1 & Hp1 & Hr1 & Hb1 & Hs1).
    destruct (cleanup_policy env policy w) as [u w1]. cbn [snd] in *.
    destruct (IH w1) as (Hc & Hk & Hsub & Hkeep & Ha & Hp & Hr & Hb & Hs).
    rewrite Hc, Hk, Ha, Hp, Hr, Hb, Hs, Hc1, Hk1, Ha1, Hp1, Hr1, Hb1, Hs1.
    split; [|split; [|split; [|split; [|repeat split]]]].
    + rewrite <- app_assoc. simpl. do 2 f_equal.
      apply imap_ext. intros i p _. unfold policy_delete. simpl.
      do 3 f_equal. lia.
    + lia.
    + etransitivity; [exact Hsub|]. rewrite Hl1.
      destruct (fault env (length (calls w))); [reflexivity | apply filter_sublist].
    + intros e Hnot. rewrite Hkeep by (intros Hin; apply Hnot; now right).
      rewrite Hl1. destruct (fault env (length (calls w))); [reflexivity|].
      rewrite filter_In, selects_older_than.
      destruct (N.eqb_spec (entry_TenantID e) (retention_TenantID policy)) as [Ht|Ht].
      * exfalso. apply Hnot. now left.
      * rewrite andb_false_r. simpl. tauto.
Qed.

Lemma Cleanup_loaded env svc w :
  fault env (length (calls w)) = None ->
  Cleanup env svc w
  = cleanup_default env svc
      (snd (for_range (log_retention_policies w) (cleanup_policy env)
              (set_calls (calls w ++ [CallFindPolicies]) w))).
Proof.
  intros Hf. unfold Cleanup, RetentionRepository_FindAll.
  autounfold with go_unfold. cbv beta iota. rewrite Hf. cbv beta iota.
  world_simpl.
  destruct (for_range (log_retention_policies w) (cleanup_policy env)
              (set_calls (calls w ++ [CallFindPolicies]) w)); reflexivity.
Qed.

Lemma cleanup_default_step env svc w :
  fst (cleanup_default env svc w) = fault env (length (calls w)) /\
  calls (snd (cleanup_default env svc w))
  = calls w ++ [CallDelete None
                  (time_AddDate_days (clock env (clock_reads w))
                     (wrap64 (- svc_RetentionDays svc)))] /\
  clock_reads (snd (cleanup_default env svc w)) = S (clock_reads w) /\
  sublist (log_entries (snd (cleanup_default env svc w))) (log_entries w) /\
  log_alerts (snd (cleanup_default env svc w)) = log_alerts w /\
  log_retention_policies (snd (cleanup_default env svc w))
  = log_retention_policies w /\
  redis_data (snd (cleanup_default env svc w)) = redis_data w /\
  buffer (snd (cleanup_default env svc w)) = buffer w /\
  spawned (snd (cleanup_default env svc w)) = spawned w /\
  stdout (snd (cleanup_default env svc w)) = stdout w.
Proof.
  unfold cleanup_default. autounfold with go_unfold. cbv beta iota.
  rewrite DeleteOlderThan_eq. world_simpl.
  destruct (fault env (length (calls w))); world_simpl;
    repeat split; try reflexivity.
  apply filter_sublist.
Qed.



(** X14. [Cleanup] only ever removes entries: what is left of the table is
    a subsequence of what was there, and the alert rules, the policies, the
    cache, the buffer and the goroutines are as before, whatever fails. *)
Theorem Cleanup_only_removes_entries env svc w :
  sublist (log_entries (snd (Cleanup env svc w))) (log_entries w) /\
  log_alerts (snd (Cleanup env svc w)) = log_alerts w /\
  log_retention_policies (snd (Cleanup env svc w)) = log_retention_policies w /\
  redis_data (snd (Cleanup env svc w)) = redis_data w /\
  buffer (snd (Cleanup env svc w)) = buffer w /\
  spawned (snd (Cleanup env svc w)) = spawned w.
Proof.
  destruct (fault env (length (calls w))) as [e|] eqn:Hf.
  - assert (Heq : Cleanup env svc w
                  = (Some e, set_calls (calls w ++ [CallFindPolicies]) w)).
    { unfold Cleanup, RetentionRepository_FindAll. run. now rewrite Hf. }
    rewrite Heq. now repeat split.
  - rewrite (Cleanup_loaded _ _ _ Hf).
    destruct (cleanup_policies_loop env (log_retention_policies w)
                (set_calls (calls w ++ [CallFindPolicies]) w))
      as (_ & _ & Hsub & _ & Ha & Hp & Hr & Hb & Hs).
    destruct (cleanup_default_step env svc
                (snd (for_range (log_retention_policies w) (cleanup_policy env)
                        (set_calls (calls w ++ [CallFindPolicies]) w))))
      as (_ & _ & _ & Hsub' & Ha' & Hp' & Hr' & Hb' & Hs' & _).
    rewrite Ha', Hp', Hr', Hb', Hs', Ha, Hp, Hr, Hb, Hs.
    split; [|now repeat split].
    etransitivity; [exact Hsub' | exact Hsub].
Qed.



Lemma BufferLog_appends_and_schedules_witness :
  spawned (snd (BufferLog Sample.env0 Sample.quiet_entry Cases.nearly_full_world))
  = spawned Cases.nearly_full_world ++ [TaskFlushBuffer] /\
  spawned (snd (BufferLog Sample.env0 Sample.quiet_entry Sample.world0))
  = spawned Sample.world0.
Proof.
  split.
  - apply (proj1 (proj2 (proj2 (proj2 (BufferLog_appends_and_schedules Sample.env0
                                         Sample.quiet_entry Cases.nearly_full_world))))).
    apply Nat.leb_le. vm_compute. reflexivity.
  - apply (proj2 (proj2 (proj2 (proj2 (BufferLog_appends_and_schedules Sample.env0
                                         Sample.quiet_entry Sample.world0))))).
    apply Nat.ltb_lt. vm_compute. reflexivity.
Defined.

(** ** The ingestion and query handlers *)

Lemma defaulted_TenantID id now entry :
  entry_TenantID (defaulted id now entry) = entry_TenantID entry.
Proof.
  unfold defaulted. destruct (no_ID entry); cbn [entry_Timestamp set_entry_ID];
    destruct (time_IsZero (entry_Timestamp entry)); reflexivity.
Qed.

Lemma ingested_TenantID env entry w :
  entry_TenantID (ingested env entry w) = entry_TenantID entry.
Proof.
  rewrite (proj1 (IngestSingle_eq env entry w)).
  exact (defaulted_TenantID (uuid_New env (uuid_draws w))
           (clock env (clock_reads w)) entry).
Qed.

Lemma LogHandler_IngestSingle_run env entry tenant_id w :
  LogHandler_IngestSingle env (inr entry) tenant_id w
  = (match snd (fst (IngestSingle env
                       (match tenant_id with
                        | Some tid => set_entry_TenantID tid entry
                        | None => entry
                        end) w)) with
     | Some e => JSON_ErrorResponse StatusInternalServerError "ingestion_failed" e
     | None =>
         JSON_LogEntry StatusCreated
           (ingested env
              (match tenant_id with
               | Some tid => set_entry_TenantID tid entry
               | None => entry
               end) w)
     end,
     snd (IngestSingle env
            (match tenant_id with
             | Some tid => set_entry_TenantID tid entry
             | None => entry
             end) w)).
Proof.
  unfold LogHandler_IngestSingle, ingested, bind. cbv zeta.
  destruct (IngestSingle env _ w) as [[e' [err|]] w1]; reflexivity.
Qed.

(** X16. The single-entry handler answers 400 to a body that does not
    decode, without calling the service.  Otherwise the entry is ingested
    under the tenant of the request context when there is one, whatever
    tenant the body names, and under the body's tenant when there is none;
    the answer is 201 with the completed entry when the store accepts it and
    500 with the store's error, the table unchanged, when it does not. *)
Theorem LogHandler_IngestSingle_tenant_and_status env tenant_id w :
  (forall err,
     LogHandler_IngestSingle env (inl err) tenant_id w
     = (JSON_ErrorResponse StatusBadRequest "invalid_request" err, w)) /\
  (forall entry,
     fault env (length (calls w)) = None ->
     exists stored,
       LogHandler_IngestSingle env (inr entry) tenant_id w
       = (JSON_LogEntry StatusCreated stored,
          snd (LogHandler_IngestSingle env (inr entry) tenant_id w)) /\
       log_entries (snd (LogHandler_IngestSingle env (inr entry) tenant_id w))
       = log_entries w ++ [stored] /\
       entry_TenantID stored
       = match tenant_id with
         | Some tid => tid
         | None => entry_TenantID entry
         end) /\
  (forall entry e,
     fault env (length (calls w)) = Some e ->
     fst (LogHandler_IngestSingle env (inr entry) tenant_id w)
     = JSON_ErrorResponse StatusInternalServerError "ingestion_failed" e /\
     log_entries (snd (LogHandler_IngestSingle env (inr entry) tenant_id w))
     = log_entries w).
Proof.
  split; [reflexivity|]. split.
  - intros entry Hf. rewrite LogHandler_IngestSingle_run.
    rewrite IngestSingle_error, Hf. cbn [fst snd].
    eexists. split; [reflexivity|].
    rewrite IngestSingle_store, Hf. split; [reflexivity|].
    rewrite ingested_TenantID. now destruct tenant_id.
  - intros entry e Hf. rewrite LogHandler_IngestSingle_run.
    rewrite IngestSingle_error, Hf. cbn [fst snd].
    now rewrite IngestSingle_store, Hf.
Qed.

Lemma LogHandler_IngestSingle_tenant_and_status_witness :
  exists stored,
    LogHandler_IngestSingle Sample.env0 (inr Sample.quiet_entry)
      (Some Sample.tenantA) Sample.world0
    = (JSON_LogEntry StatusCreated stored,
       snd (LogHandler_IngestSingle Sample.env0 (inr Sample.quiet_entry)
              (Some Sample.tenantA) Sample.world0)) /\
    log_entries (snd (LogHandler_IngestSingle Sample.env0 (inr Sample.quiet_entry)
                        (Some Sample.tenantA) Sample.world0))
    = log_entries Sample.world0 ++ [stored] /\
    entry_TenantID stored = Sample.tenantA.
Proof.
  apply (proj1 (proj2 (LogHandler_IngestSingle_tenant_and_status Sample.env0
                         (Some Sample.tenantA) Sample.world0)) Sample.quiet_entry).
  reflexivity.
Defined.

Lemma batch_defaults_result_TenantID env now k entries :
  map entry_TenantID (batch_defaults_result env now k entries)
  = map entry_TenantID entries.
Proof.
  revert k. induction entries as [|entry rest IH]; intros k; [reflexivity|].
  cbn [batch_defaults_result map]. rewrite IH. f_equal.
  exact (defaulted_TenantID (uuid_New env k) now entry).
Qed.

Lemma batch_tenant_TenantID tid entries :
  map entry_TenantID (batch_tenant tid entries)
  = map (fun e => if N.eqb (entry_TenantID e) uuid_Nil
                  then tid else entry_TenantID e) entries.
Proof.
  unfold batch_tenant. rewrite map_map. apply map_ext. intros e.
  now destruct (N.eqb (entry_TenantID e) uuid_Nil).
Qed.

Lemma LogHandler_IngestBatch_run env entries tenant_id w :
  LogHandler_IngestBatch env (inr entries) tenant_id w
  = (match snd (fst (IngestBatch env
                       (match tenant_id with
                        | Some tid => batch_tenant tid entries
                        | None => entries
                        end) w)) with
     | Some e => JSON_ErrorResponse StatusInternalServerError "ingestion_failed" e
     | None =>
         JSON_count StatusCreated
           (Z.of_nat (length (ingested_batch env
                                (match tenant_id with
                                 | Some tid => batch_tenant tid entries
                                 | None => entries
                                 end) w)))
     end,
     snd (IngestBatch env
            (match tenant_id with
             | Some tid => batch_tenant tid entries
             | None => entries
             end) w)).
Proof.
  unfold LogHandler_IngestBatch, ingested_batch, bind. cbv zeta.
  destruct (IngestBatch env _ w) as [[es' [err|]] w1]; reflexivity.
Qed.

(** X17. The batch handler, unlike the single-entry one, gives the tenant
    of the request context only to the entries that name no tenant: an
    entry of the batch that names another tenant is stored under that other
    tenant.  When the store accepts a non-empty batch the answer is 201 with
    the number of entries, and the table grows by exactly these entries. *)
Theorem LogHandler_IngestBatch_keeps_named_tenants env tid entries w :
  entries <> [] ->
  fault env (length (calls w)) = None ->
  exists stored,
    fst (LogHandler_IngestBatch env (inr entries) (Some tid) w)
    = JSON_count StatusCreated (Z.of_nat (length entries)) /\
    log_entries (snd (LogHandler_IngestBatch env (inr entries) (Some tid) w))
    = log_entries w ++ stored /\
    map entry_TenantID stored
    = map (fun e => if N.eqb (entry_TenantID e) uuid_Nil
                    then tid else entry_TenantID e) entries.
Proof.
  intros Hne Hf.
  assert (Hne' : batch_tenant tid entries <> [])
    by (destruct entries; [congruence | discriminate]).
  exists (ingested_batch env (batch_tenant tid entries) w).
  rewrite (LogHandler_IngestBatch_run env entries (Some tid) w).
  cbn [fst snd]. rewrite IngestBatch_error.
  rewrite (proj1 (IngestBatch_store env (batch_tenant tid entries) w)), Hf.
  pose proof (proj1 (IngestBatch_eq env (batch_tenant tid entries) w)) as Heq.
  destruct (batch_tenant tid entries) as [|e0 rest] eqn:Hbt; [congruence|].
  rewrite <- Hbt in *. split; [|split].
  - rewrite Heq, batch_defaults_result_length.
    unfold batch_tenant. now rewrite length_map.
  - reflexivity.
  - rewrite Heq, batch_defaults_result_TenantID. apply batch_tenant_TenantID.
Qed.

Lemma LogHandler_IngestBatch_keeps_named_tenants_witness :
  exists stored,
    fst (LogHandler_IngestBatch Sample.env0
           (inr [Sample.entryB_10d;
                 set_entry_TenantID uuid_Nil Sample.blank_entry])
           (Some Sample.tenantA) Sample.world0)
    = JSON_count StatusCreated 2 /\
    log_entries (snd (LogHandler_IngestBatch Sample.env0
                        (inr [Sample.entryB_10d;
                              set_entry_TenantID uuid_Nil Sample.blank_entry])
                        (Some Sample.tenantA) Sample.world0))
    = log_entries Sample.world0 ++ stored /\
    map entry_TenantID stored = [Sample.tenantB; Sample.tenantA].
Proof.
  apply (LogHandler_IngestBatch_keeps_named_tenants Sample.env0 Sample.tenantA
           [Sample.entryB_10d; set_entry_TenantID uuid_Nil Sample.blank_entry]
           Sample.world0).
  - discriminate.
  - reflexivity.
Defined.

Lemma buildQuery_TenantID env filter t e :
  filter_TenantID filter = Some t ->
  selects (buildQuery env filter) e = true ->
  entry_TenantID e = t.
Proof.
  intros Ht. unfold buildQuery. cbv zeta.
  repeat (rewrite selects_Where_if || rewrite selects_Where_ptr).
  rewrite Ht, !andb_true_iff. intros Hall.
  repeat match goal with H : _ /\ _ |- _ => destruct H end.
  now apply N.eqb_eq.
Qed.

Lemma LogRepository_Query_selected env filter w entries total :
  fst (LogRepository_Query env filter w) = (entries, total, None) ->
  forall e, In e entries ->
            In e (log_entries w) /\ selects (buildQuery env filter) e = true.
Proof.
  intros Hres e Hin.
  destruct (fault env (length (calls w))) as [e1|] eqn:Hf1.
  - exfalso. revert Hres. unfold LogRepository_Query. autounfold with go_unfold.
    cbv beta iota zeta. now rewrite Hf1.
  - destruct (fault env (S (length (calls w)))) as [e2|] eqn:Hf2.
    + exfalso. revert Hres. unfold LogRepository_Query. autounfold with go_unfold.
      cbv beta iota zeta. rewrite Hf1. cbv beta iota. world_simpl.
      rewrite length_app, Nat.add_1_r. cbn [length]. now rewrite Hf2.
    + rewrite (LogRepository_Query_success _ _ _ Hf1 Hf2) in Hres.
      cbn [fst] in Hres. injection Hres as <- _.
      apply page_In in Hin.
      apply (Permutation_in _ (order_timestamp_desc_Permutation _)) in Hin.
      now apply filter_In in Hin.
Qed.

Lemma LogHandler_Query_run env svc filter tenant_id w :
  LogHandler_Query env svc (inr filter) tenant_id w
  = (match fst (Query env svc
                  (match tenant_id with
                   | Some tid => set_filter_TenantID (Some tid) filter
                   | None => filter
                   end) w) with
     | (_, Some e) => JSON_ErrorResponse StatusInternalServerError "query_failed" e
     | (result, None) => JSON_LogQueryResult StatusOK result
     end,
     snd (Query env svc
            (match tenant_id with
             | Some tid => set_filter_TenantID (Some tid) filter
             | None => filter
             end) w)).
Proof.
  unfold LogHandler_Query, bind. cbv zeta.
  destruct (Query env svc _ w) as [[result [err|]] w1]; reflexivity.
Qed.

(** X18. With a tenant header that [uuid.Parse] accepts, the query handler
    replaces the tenant of the filter by that tenant, and whenever the
    answer comes from the store every entry in it belongs to that tenant.
    With an empty header, or one that does not parse, the request is not
    refused: it is served with the filter of the body as it is. *)
Theorem LogHandler_Query_tenant_scope env svc uuid_Parse header filter w :
  (forall t entries total,
     header <> EmptyString ->
     uuid_Parse header = Some t ->
     svc_redis svc = false \/
     (exists e, snd (fst (cache_read env svc
                            (set_filter_TenantID (Some t) filter) w)) = Some e) ->
     fst (store_read env svc (set_filter_TenantID (Some t) filter) w)
     = (entries, total, None) ->
     fst (LogHandler_Query env svc (inr filter)
            (TenantExtractor uuid_Parse header) w)
     = JSON_LogQueryResult StatusOK
         (Some (result_of (set_filter_TenantID (Some t) filter) entries total)) /\
     Forall (fun e => entry_TenantID e = t) entries) /\
  (header = EmptyString \/ uuid_Parse header = None ->
   LogHandler_Query env svc (inr filter) (TenantExtractor uuid_Parse header) w
   = LogHandler_Query env svc (inr filter) None w).
Proof.
  split.
  - intros t entries total Hh Hparse Hmiss Hstore.
    unfold TenantExtractor. rewrite (nonempty_true _ Hh), Hparse.
    rewrite LogHandler_Query_run, (Query_miss _ _ _ _ Hmiss). cbn [fst].
    split.
    + destruct (store_read env svc (set_filter_TenantID (Some t) filter) w)
        as [[[es tot] err] w2].
      cbn [fst] in Hstore. injection Hstore as -> -> ->. reflexivity.
    + apply List.Forall_forall. intros e Hin.
      unfold store_read in Hstore.
      destruct (LogRepository_Query_selected _ _ _ _ _ Hstore e Hin) as [_ Hsel].
      now apply (buildQuery_TenantID env (set_filter_TenantID (Some t) filter)).
  - intros Hbad. unfold TenantExtractor, nonempty.
    destruct Hbad as [-> | Hnone]; [reflexivity|].
    rewrite Hnone. now destruct (negb _).
Qed.

Lemma LogHandler_Query_tenant_scope_witness :
  fst (LogHandler_Query Sample.env0 (mkLogService false 30) (inr Sample.zero_filter)
         (TenantExtractor Cases.parse_header Cases.tenantA_header)
         (Sample.with_logs Cases.three_entries))
  = JSON_LogQueryResult StatusOK
      (Some (result_of (set_filter_TenantID (Some Sample.tenantA) Sample.zero_filter)
               [Sample.entryA_40d; Sample.entryA_90d] 2)) /\
  Forall (fun e => entry_TenantID e = Sample.tenantA)
    [Sample.entryA_40d; Sample.entryA_90d].
Proof.
  apply (proj1 (LogHandler_Query_tenant_scope Sample.env0 (mkLogService false 30)
                  Cases.parse_header Cases.tenantA_header Sample.zero_filter
                  (Sample.with_logs Cases.three_entries))
           Sample.tenantA [Sample.entryA_40d; Sample.entryA_90d] 2).
  - discriminate.
  - reflexivity.
  - left. reflexivity.
  - reflexivity.
Defined.

(** ** Which entries survive a cleanup whose calls all succeed *)




(** ** Lookups by trace and by request *)

Lemma insert_asc_Permutation e sorted : Permutation (insert_asc e sorted) (e :: sorted).
Proof.
  induction sorted as [|x rest IH]; simpl; [reflexivity|].
  destruct (entry_Timestamp e <? entry_Timestamp x); [reflexivity|].
  rewrite IH. apply perm_swap.
Qed.

Lemma order_timestamp_asc_Permutation rows :
  Permutation (order_timestamp_asc rows) rows.
Proof.
  unfold order_timestamp_asc. induction rows as [|e rows IH]; simpl; [reflexivity|].
  rewrite insert_asc_Permutation. now constructor.
Qed.

Lemma insert_asc_sorted e sorted :
  StronglySorted older_or_equal sorted ->
  StronglySorted older_or_equal (insert_asc e sorted).
Proof.
  induction 1 as [|x rest Hs IH Hall]; simpl; [repeat constructor|].
  destruct (Z.ltb_spec (entry_Timestamp e) (entry_Timestamp x)) as [Hlt|Hge].
  - constructor; [now constructor|]. constructor; [unfold older_or_equal; lia|].
    eapply List.Forall_impl; [|exact Hall]. unfold older_or_equal. intros a Ha. lia.
  - constructor; [exact IH|].
    rewrite insert_asc_Permutation. constructor; [exact Hge | exact Hall].
Qed.

Lemma order_timestamp_asc_sorted rows :
  StronglySorted older_or_equal (order_timestamp_asc rows).
Proof.
  unfold order_timestamp_asc. induction rows as [|e rows IH]; simpl;
    [constructor | now apply insert_asc_sorted].
Qed.

Lemma sorted_selection (p : LogEntry -> bool) rows :
  Permutation (order_timestamp_asc (List.filter p rows)) (List.filter p rows) /\
  StronglySorted older_or_equal (order_timestamp_asc (List.filter p rows)) /\
  (forall e, In e (order_timestamp_asc (List.filter p rows)) <->
             In e rows /\ p e = true).
Proof.
  split; [apply order_timestamp_asc_Permutation|].
  split; [apply order_timestamp_asc_sorted|].
  intros e. rewrite <- filter_In. split; apply Permutation_in.
  - apply order_timestamp_asc_Permutation.
  - symmetry. apply order_timestamp_asc_Permutation.
Qed.

(** X20. [GetByTraceID] and [GetByRequestID], when their statement
    succeeds, return the rows that carry exactly the given trace (request)
    identifier, each as often as it is in the table, oldest first; when the
    statement fails they return no row and the error. *)
Theorem correlation_lookups_are_exact_and_ordered rows :
  (forall traceID,
     Permutation (fst (LogRepository_GetByTraceID None traceID rows))
       (List.filter (fun e => String.eqb (entry_TraceID e) traceID) rows) /\
     StronglySorted older_or_equal (fst (LogRepository_GetByTraceID None traceID rows)) /\
     (forall e, In e (fst (LogRepository_GetByTraceID None traceID rows)) <->
                In e rows /\ entry_TraceID e = traceID) /\
     snd (LogRepository_GetByTraceID None traceID rows) = None /\
     forall err, LogRepository_GetByTraceID (Some err) traceID rows = ([], Some err)) /\
  (forall requestID,
     Permutation (fst (LogRepository_GetByRequestID None requestID rows))
       (List.filter (fun e => String.eqb (entry_RequestID e) requestID) rows) /\
     StronglySorted older_or_equal
       (fst (LogRepository_GetByRequestID None requestID rows)) /\
     (forall e, In e (fst (LogRepository_GetByRequestID None requestID rows)) <->
                In e rows /\ entry_RequestID e = requestID) /\
     snd (LogRepository_GetByRequestID None requestID rows) = None /\
     forall err,
       LogRepository_GetByRequestID (Some err) requestID rows = ([], Some err)).
Proof.
  split.
  - intros traceID.
    destruct (sorted_selection (fun e => String.eqb (entry_TraceID e) traceID) rows)
      as (Hp & Hs & Hin).
    split; [exact Hp|]. split; [exact Hs|]. split; [|split; reflexivity].
    intros e. cbn [LogRepository_GetByTraceID fst]. rewrite Hin.
    now rewrite String.eqb_eq.
  - intros requestID.
    destruct (sorted_selection (fun e => String.eqb (entry_RequestID e) requestID) rows)
      as (Hp & Hs & Hin).
    split; [exact Hp|]. split; [exact Hs|]. split; [|split; reflexivity].
    intros e. cbn [LogRepository_GetByRequestID fst]. rewrite Hin.
    now rewrite String.eqb_eq.
Qed.

(** ** Service names *)

Lemma of_tenant_In tenantID rows e :
  In e (of_tenant tenantID rows) <->
  In e rows /\ forall t, tenantID = Some t -> entry_TenantID e = t.
Proof.
  unfold of_tenant. destruct tenantID as [t|].
  - rewrite filter_In, N.eqb_eq. split.
    + intros [Hin Ht]. split; [exact Hin|]. now intros t' [= <-].
    + intros [Hin Ht]. split; [exact Hin | now apply Ht].
  - split; [intros Hin; split; [exact Hin | discriminate] | tauto].
Qed.

(** X21. [GetServices], when its statement succeeds, returns every service
    name that occurs on an entry of the tenant (of any tenant when none is
    given), each exactly once, and no other name; when the statement fails
    it returns no name and the error. *)
Theorem GetServices_distinct_names tenantID rows :
  NoDup (fst (LogRepository_GetServices None tenantID rows)) /\
  (forall name,
     In name (fst (LogRepository_GetServices None tenantID rows)) <->
     exists e, In e rows /\
               (forall t, tenantID = Some t -> entry_TenantID e = t) /\
               entry_ServiceName e = name) /\
  snd (LogRepository_GetServices None tenantID rows) = None /\
  (forall err, LogRepository_GetServices (Some err) tenantID rows = ([], Some err)).
Proof.
  cbn [LogRepository_GetServices fst snd].
  split; [apply NoDup_remove_dups|]. split; [|split; reflexivity].
  intros name. rewrite <- list_elem_of_In, elem_of_remove_dups, list_elem_of_In.
  rewrite in_map_iff. split.
  - intros (e & Hname & Hin). apply of_tenant_In in Hin. exists e. tauto.
  - intros (e & Hin & Ht & Hname). exists e. split; [exact Hname|].
    apply of_tenant_In. tauto.
Qed.

(** ** Storage size *)

Lemma wrap64_small z : 0 <= z <= maxInt64 -> wrap64 z = z.
Proof.
  unfold maxInt64, wrap64. intros Hz. rewrite Z.mod_small; lia.
Qed.

Lemma of_tenant_length_le tenantID rows :
  (length (of_tenant tenantID rows) <= length rows)%nat.
Proof.
  unfold of_tenant. destruct tenantID as [t|]; [|lia].
  pose proof (filter_split_length (fun e => N.eqb (entry_TenantID e) t) rows) as Hsplit.
  cbv beta in Hsplit. lia.
Qed.

Lemma of_tenant_all t rows :
  Forall (fun e => entry_TenantID e = t) rows -> of_tenant (Some t) rows = rows.
Proof.
  unfold of_tenant. induction 1 as [|e rest He _ IH]; simpl; [reflexivity|].
  now rewrite (proj2 (N.eqb_eq _ _) He), IH.
Qed.

(** X22. For a tenant, [GetStorageSize] never returns an error and answers 0
    when the table is empty or its first count fails.  When its three
    statements succeed and the product does not overflow, the estimate is
    the whole relation size times the tenant's share of the rows, rounded
    down: it lies between 0 and the relation size and equals it when every
    row is the tenant's.  Without a tenant the relation size is returned, or
    the error of the statement. *)
Theorem GetStorageSize_estimate relation_size rows :
  (forall count_all count_tenant scan t,
     snd (LogRepository_GetStorageSize relation_size count_all count_tenant scan
            (Some t) rows) = None) /\
  (forall count_all count_tenant scan t,
     rows = [] \/ count_all <> None ->
     fst (LogRepository_GetStorageSize relation_size count_all count_tenant scan
            (Some t) rows) = 0) /\
  (forall t,
     rows <> [] ->
     0 <= relation_size ->
     relation_size * Z.of_nat (length rows) <= maxInt64 ->
     fst (LogRepository_GetStorageSize relation_size None None None (Some t) rows)
     = relation_size * Z.of_nat (length (of_tenant (Some t) rows))
       / Z.of_nat (length rows) /\
     0 <= fst (LogRepository_GetStorageSize relation_size None None None (Some t) rows)
       <= relation_size /\
     (Forall (fun e => entry_TenantID e = t) rows ->
      fst (LogRepository_GetStorageSize relation_size None None None (Some t) rows)
      = relation_size)) /\
  (forall count_all count_tenant,
     LogRepository_GetStorageSize relation_size count_all count_tenant None None rows
     = (relation_size, None) /\
     forall err,
       LogRepository_GetStorageSize relation_size count_all count_tenant (Some err)
         None rows = (0, Some err)).
Proof.
  split; [|split; [|split]].
  - intros count_all count_tenant scan t. unfold LogRepository_GetStorageSize.
    cbv zeta. now destruct (0 <? _).
  - intros count_all count_tenant scan t Hempty.
    unfold LogRepository_GetStorageSize. cbv zeta.
    destruct Hempty as [-> | Hfail].
    + now destruct count_all.
    + destruct count_all; [reflexivity | congruence].
  - intros t Hne Hsize Hprod.
    pose proof (of_tenant_length_le (Some t) rows) as Hle.
    assert (Hpos : 0 < Z.of_nat (length rows))
      by (destruct rows; [congruence | simpl; lia]).
    unfold LogRepository_GetStorageSize. cbv zeta.
    rewrite (proj2 (Z.ltb_lt _ _) Hpos). cbn [fst].
    rewrite wrap64_small by (unfold maxInt64 in *; nia).
    rewrite Z.quot_div_nonneg by nia.
    split; [reflexivity|]. split; [split|].
    + apply Z.div_pos; nia.
    + apply Z.div_le_upper_bound; nia.
    + intros Hall. rewrite (of_tenant_all _ _ Hall). apply Z.div_mul. lia.
  - intros count_all count_tenant. split; [reflexivity|]. reflexivity.
Qed.

Lemma GetStorageSize_estimate_witness :
  fst (LogRepository_GetStorageSize 3000 None None None (Some Sample.tenantA)
         Cases.three_entries)
  = 3000 * Z.of_nat (length (of_tenant (Some Sample.tenantA) Cases.three_entries))
    / Z.of_nat (length Cases.three_entries) /\
  0 <= fst (LogRepository_GetStorageSize 3000 None None None (Some Sample.tenantA)
              Cases.three_entries) <= 3000 /\
  (Forall (fun e => entry_TenantID e = Sample.tenantA) Cases.three_entries ->
   fst (LogRepository_GetStorageSize 3000 None None None (Some Sample.tenantA)
          Cases.three_entries) = 3000).
Proof.
  apply (proj1 (proj2 (proj2 (GetStorageSize_estimate 3000 Cases.three_entries)))
           Sample.tenantA).
  - discriminate.
  - discriminate.
  - vm_compute. discriminate.
Defined.

(** ** Statistics *)

Lemma counts_of_absent (results : list (string * Z)) (m : gmap string Z) k :
  ~ In k (map fst results) ->
  fold_left (fun m r => <[fst r := snd r]> m) results m !! k = m !! k.
Proof.
  revert m. induction results as [|[k0 v0] rest IH]; intros m Hk; [reflexivity|].
  simpl in *. rewrite IH by tauto. apply lookup_insert_ne. tauto.
Qed.

Lemma counts_of_present (results : list (string * Z)) (m : gmap string Z) k v :
  NoDup (map fst results) ->
  In (k, v) results ->
  fold_left (fun m r => <[fst r := snd r]> m) results m !! k = Some v.
Proof.
  revert m. induction results as [|[k0 v0] rest IH]; intros m Hnd Hin; [easy|].
  simpl in *. apply NoDup_cons in Hnd. destruct Hnd as [Hk0 Hnd].
  destruct Hin as [[= -> ->] | Hin].
  - rewrite counts_of_absent by (now rewrite <- list_elem_of_In).
    apply lookup_insert_eq.
  - now apply IH.
Qed.

Lemma group_count_keys key rows :
  map fst (group_count key rows) = remove_dups (map key rows).
Proof.
  unfold group_count. rewrite map_map. simpl. apply map_id.
Qed.

Lemma counts_of_group_count key rows k :
  counts_of (group_count key rows) !! k
  = if existsb (fun e => String.eqb (key e) k) rows
    then Some (Z.of_nat (length (List.filter (fun e => String.eqb (key e) k) rows)))
    else None.
Proof.
  unfold counts_of.
  destruct (existsb (fun e => String.eqb (key e) k) rows) eqn:Hex.
  - apply counts_of_present.
    + rewrite group_count_keys. apply NoDup_remove_dups.
    + unfold group_count. apply in_map_iff. exists k. split; [reflexivity|].
      apply list_elem_of_In, elem_of_remove_dups, list_elem_of_In, in_map_iff.
      apply existsb_exists in Hex. destruct Hex as (e & Hin & He).
      exists e. split; [now apply String.eqb_eq | exact Hin].
  - rewrite counts_of_absent; [apply lookup_empty|].
    rewrite group_count_keys. intros Hin.
    apply list_elem_of_In, elem_of_remove_dups, list_elem_of_In, in_map_iff in Hin.
    destruct Hin as (e & He & Hin).
    assert (Htrue : existsb (fun e => String.eqb (key e) k) rows = true)
      by (apply existsb_exists; exists e; split;
          [exact Hin | now apply String.eqb_eq]).
    congruence.
Qed.

(** X23. [GetStats] never returns an error.  When its statements succeed,
    the total counts the entries of the time range (both ends included)
    that belong to the given tenant, while the counts per level and per
    service count the entries of the time range of all tenants: the tenant
    restricts the total only.  A level or service without an entry in the
    range has no count. *)
Theorem GetStats_counts tenantID startTime endTime rows :
  (forall count by_level by_service,
     snd (LogRepository_GetStats count by_level by_service tenantID
            startTime endTime rows) = None) /\
  stats_TotalCount (fst (LogRepository_GetStats None None None tenantID
                           startTime endTime rows))
  = Z.of_nat (length (of_tenant tenantID (in_range startTime endTime rows))) /\
  (forall level,
     stats_LevelCounts (fst (LogRepository_GetStats None None None tenantID
                               startTime endTime rows)) !! level
     = if existsb (fun e => String.eqb (entry_Level e) level)
            (in_range startTime endTime rows)
       then Some (Z.of_nat (length (List.filter
                                      (fun e => String.eqb (entry_Level e) level)
                                      (in_range startTime endTime rows))))
       else None) /\
  (forall name,
     stats_ServiceCounts (fst (LogRepository_GetStats None None None tenantID
                                 startTime endTime rows)) !! name
     = if existsb (fun e => String.eqb (entry_ServiceName e) name)
            (in_range startTime endTime rows)
       then Some (Z.of_nat (length (List.filter
                                      (fun e => String.eqb (entry_ServiceName e) name)
                                      (in_range startTime endTime rows))))
       else None) /\
  (forall e, In e (in_range startTime endTime rows) <->
             In e rows /\ startTime <= entry_Timestamp e <= endTime).
Proof.
  split; [reflexivity|]. split; [reflexivity|]. split; [|split].
  - intros level. apply counts_of_group_count.
  - intros name. apply counts_of_group_count.
  - intros e. unfold in_range. rewrite filter_In, andb_true_iff.
    rewrite Z.leb_le, Z.leb_le. tauto.
Qed.

(** The statistics of tenant B over a table that also holds entries of
    tenant A: one entry in total, and three entries of level INFO. *)
Example GetStats_of_one_tenant :
  stats_TotalCount (fst (LogRepository_GetStats None None None (Some Sample.tenantB)
                           0 Sample.t0 Cases.three_entries)) = 1 /\
  stats_LevelCounts (fst (LogRepository_GetStats None None None (Some Sample.tenantB)
                            0 Sample.t0 Cases.three_entries)) !! "INFO"
  = Some 3.
Proof. split; reflexivity. Qed.

(** ** The properties above on the sample table *)

Lemma buildCacheKey_injective_witness :
  buildCacheKey Sample.env0 Sample.zero_filter
  = buildCacheKey Sample.env0 Sample.zero_filter <->
  json_Marshal_LogFilter Sample.env0 Sample.zero_filter
  = json_Marshal_LogFilter Sample.env0 Sample.zero_filter.
Proof.
  apply (proj2 (buildCacheKey_injective Sample.env0)
           Sample.zero_filter Sample.zero_filter).
Defined.

Lemma correlation_lookups_are_exact_and_ordered_witness :
  In Sample.entryB_10d (fst (LogRepository_GetByTraceID None "" Cases.three_entries)) <->
  In Sample.entryB_10d Cases.three_entries /\ entry_TraceID Sample.entryB_10d = "".
Proof.
  apply (proj1 (proj2 (proj2 (proj1 (correlation_lookups_are_exact_and_ordered
                                      Cases.three_entries) "")))).
Defined.

Lemma GetServices_distinct_names_witness :
  In "api" (fst (LogRepository_GetServices None (Some Sample.tenantB)
                   Cases.three_entries)) <->
  exists e, In e Cases.three_entries /\
            (forall t, Some Sample.tenantB = Some t -> entry_TenantID e = t) /\
            entry_ServiceName e = "api".
Proof.
  apply (proj1 (proj2 (GetServices_distinct_names (Some Sample.tenantB)
                         Cases.three_entries))).
Defined.

Lemma GetStats_counts_witness :
  stats_TotalCount (fst (LogRepository_GetStats None None None (Some Sample.tenantB)
                           0 Sample.t0 Cases.three_entries))
  = Z.of_nat (length (of_tenant (Some Sample.tenantB)
                        (in_range 0 Sample.t0 Cases.three_entries))) /\
  (In Sample.entryB_10d (in_range 0 Sample.t0 Cases.three_entries) <->
   In Sample.entryB_10d Cases.three_entries /\
   0 <= entry_Timestamp Sample.entryB_10d <= Sample.t0).
Proof.
  split.
  - apply (proj1 (proj2 (GetStats_counts (Some Sample.tenantB) 0 Sample.t0
                           Cases.three_entries))).
  - apply (proj2 (proj2 (proj2 (proj2 (GetStats_counts (Some Sample.tenantB) 0
                                         Sample.t0 Cases.three_entries))))).
Defined.

(** ** Filters as queries and as alert predicates *)

Lemma selects_buildQuery_three env filter e :
  selects (buildQuery env filter) e = true ->
  (forall t, filter_TenantID filter = Some t -> entry_TenantID e = t) /\
  (filter_ServiceName filter <> EmptyString ->
   entry_ServiceName e = filter_ServiceName filter) /\
  (filter_Level filter <> EmptyString -> entry_Level e = filter_Level filter).
Proof.
  unfold buildQuery. cbv zeta.
  repeat (rewrite selects_Where_if || rewrite selects_Where_ptr).
  rewrite !andb_true_iff. intros Hall.
  repeat match goal with H : _ /\ _ |- _ => destruct H end.
  split; [|split].
  - intros t Ht. rewrite Ht in *. now apply N.eqb_eq.
  - intros Hs. rewrite (nonempty_true _ Hs) in *. now apply String.eqb_eq.
  - intros Hl. rewrite (nonempty_true _ Hl) in *. now apply String.eqb_eq.
Qed.

(** X24. A rule matches every entry that a query with the rule's own filter
    selects: the predicate of [matchesAlert] is never narrower than the
    WHERE clause [buildQuery] builds from the same filter. *)
Theorem selected_entries_match_the_rule env entry alert filter :
  json_Unmarshal_LogFilter env (alert_Filter alert) = Some filter ->
  selects (buildQuery env filter) entry = true ->
  matchesAlert env entry alert = true.
Proof.
  intros Hdec Hsel.
  destruct (selects_buildQuery_three env filter entry Hsel) as (Ht & Hs & Hl).
  unfold matchesAlert. rewrite Hdec.
  destruct (String.eqb_spec (filter_ServiceName filter) EmptyString) as [Hs0|Hs0];
    cbn [negb andb].
  - destruct (String.eqb_spec (filter_Level filter) EmptyString) as [Hl0|Hl0];
      cbn [negb andb].
    + destruct (filter_TenantID filter) as [t|]; [|reflexivity].
      now rewrite (Ht t eq_refl), N.eqb_refl.
    + rewrite <- (Hl Hl0), String.eqb_refl. cbn [negb].
      destruct (filter_TenantID filter) as [t|]; [|reflexivity].
      now rewrite (Ht t eq_refl), N.eqb_refl.
  - rewrite <- (Hs Hs0), String.eqb_refl. cbn [negb].
    destruct (String.eqb_spec (filter_Level filter) EmptyString) as [Hl0|Hl0];
      cbn [negb andb].
    + destruct (filter_TenantID filter) as [t|]; [|reflexivity].
      now rewrite (Ht t eq_refl), N.eqb_refl.
    + rewrite <- (Hl Hl0), String.eqb_refl. cbn [negb].
      destruct (filter_TenantID filter) as [t|]; [|reflexivity].
      now rewrite (Ht t eq_refl), N.eqb_refl.
Qed.

Lemma selected_entries_match_the_rule_witness :
  matchesAlert Sample.env0 Sample.quiet_entry Sample.catch_all_rule = true.
Proof.
  apply (selected_entries_match_the_rule Sample.env0 Sample.quiet_entry
           Sample.catch_all_rule Sample.zero_filter); reflexivity.
Defined.

(** The converse does not hold: the rule with the filter on service [api]
    and search text [timeout] matches an entry whose message the query
    would not select. *)
Example rule_matches_more_than_its_query :
  matchesAlert Sample.env0 Sample.quiet_entry
    (Sample.rule 1%N "api errors" Sample.api_filter_json None) = true /\
  selects (buildQuery Sample.env0 Sample.api_filter) Sample.quiet_entry = false.
Proof. split; reflexivity. Qed.

(** A filter whose predicate fields are all zero restricts nothing: the
    query selects every entry of every tenant, whatever the page fields
    say. *)
Lemma empty_filter_selects_everything env filter :
  filter_TenantID filter = None ->
  filter_ServiceName filter = EmptyString ->
  filter_Level filter = EmptyString ->
  filter_MinLevel filter = EmptyString ->
  filter_StartTime filter = None ->
  filter_EndTime filter = None ->
  filter_TraceID filter = EmptyString ->
  filter_UserID filter = None ->
  filter_RequestID filter = EmptyString ->
  filter_Environment filter = EmptyString ->
  filter_Search filter = EmptyString ->
  buildQuery env filter = [] /\
  forall rows, List.filter (selects (buildQuery env filter)) rows = rows.
Proof.
  intros Ht Hs Hl Hm Hst Hen Htr Hu Hr He Hse.
  assert (Hq : buildQuery env filter = []).
  { unfold buildQuery. cbv zeta.
    now rewrite Ht, Hs, Hl, Hm, Hst, Hen, Htr, Hu, Hr, He, Hse. }
  split; [exact Hq|]. rewrite Hq. intros rows.
  induction rows as [|e rows IH]; [reflexivity|]. simpl. now rewrite IH.
Qed.

Lemma empty_filter_selects_everything_witness :
  buildQuery Sample.env0 Sample.zero_filter = [] /\
  forall rows,
    List.filter (selects (buildQuery Sample.env0 Sample.zero_filter)) rows = rows.
Proof.
  apply (empty_filter_selects_everything Sample.env0 Sample.zero_filter);
    reflexivity.
Defined.

(** ** Rules that must fire *)

Lemma checkAlerts_loop_grows env entry (rules : list LogAlert) w :
  (forall o, In o (stdout w) ->
             In o (stdout (snd (for_range rules (checkAlerts_rule env entry) w)))) /\
  (forall c, In c (calls w) ->
             In c (calls (snd (for_range rules (checkAlerts_rule env entry) w)))).
Proof.
  destruct (checkAlerts_loop_effect env entry rules w)
    as (fired & _ & _ & Hc & Hs & _).
  rewrite Hc, Hs. split; intros x Hin; apply in_or_app; now left.
Qed.

(** X25. When the rules load, every enabled rule that matches the entry and
    was never triggered before is triggered by the evaluation: its
    [UpdateLastTriggered] call is made and its notification is printed. *)
Theorem never_triggered_matching_rule_fires env entry w alert :
  fault env (length (calls w)) = None ->
  In alert (List.filter alert_Enabled (log_alerts w)) ->
  matchesAlert env entry alert = true ->
  alert_LastTriggered alert = None ->
  In (OutAlertTriggered (alert_Name alert) (entry_Message entry))
    (stdout (snd (checkAlerts env entry w))) /\
  In (CallUpdateLastTriggered (alert_ID alert))
    (calls (snd (checkAlerts env entry w))).
Proof.
  intros Hf Hin Hm Hnone. rewrite (checkAlerts_loaded _ _ _ Hf).
  apply in_split in Hin. destruct Hin as (pre & post & ->).
  rewrite for_range_app.
  set (w1 := snd (for_range pre (checkAlerts_rule env entry)
                    (set_calls (calls w ++ [CallFindEnabled]) w))).
  cbn [for_range]. unfold bind.
  assert (Hfire : In (OutAlertTriggered (alert_Name alert) (entry_Message entry))
                    (stdout (snd (checkAlerts_rule env entry alert w1))) /\
                  In (CallUpdateLastTriggered (alert_ID alert))
                    (calls (snd (checkAlerts_rule env entry alert w1)))).
  { unfold checkAlerts_rule. rewrite Hm, (triggerAlert_armed _ _ _ _ Hnone).
    destruct (update_then_notify env (alert_ID alert) (alert_Name alert)
                (entry_Message entry) w1 w1 eq_refl eq_refl eq_refl)
      as (Hc & Hs & _).
    rewrite Hc, Hs. split; apply in_or_app; right; now left. }
  destruct (checkAlerts_rule env entry alert w1) as [u w2]. cbn [snd] in Hfire.
  destruct (checkAlerts_loop_grows env entry post w2) as (Hso & Hco).
  destruct Hfire as [Ho Hc]. split; [now apply Hso | now apply Hco].
Qed.

Lemma never_triggered_matching_rule_fires_witness :
  In (OutAlertTriggered (alert_Name Sample.catch_all_rule)
        (entry_Message Sample.quiet_entry))
    (stdout (snd (checkAlerts Sample.env0 Sample.quiet_entry Sample.two_rules_world))) /\
  In (CallUpdateLastTriggered (alert_ID Sample.catch_all_rule))
    (calls (snd (checkAlerts Sample.env0 Sample.quiet_entry Sample.two_rules_world))).
Proof.
  apply (never_triggered_matching_rule_fires Sample.env0 Sample.quiet_entry
           Sample.two_rules_world Sample.catch_all_rule).
  - reflexivity.
  - right. left. reflexivity.
  - reflexivity.
  - reflexivity.
Defined.

(** ** Ingest, then query *)

(** X26. An entry that [IngestSingle] stored is seen by the next
    [LogRepository.Query] whose filter selects it: the total is one more
    than it would have been before, and the entry is on the first page
    whenever the total fits into the page.  (A query through the cache may
    still answer with an older result, see X10.) *)
Theorem ingested_entry_is_counted_and_found env entry filter w :
  (forall k, (k < 3)%nat -> fault env (length (calls w) + k) = None) ->
  selects (buildQuery env filter) (ingested env entry w) = true ->
  exists entries total,
    fst (LogRepository_Query env filter (snd (IngestSingle env entry w)))
    = (entries, total, None) /\
    total = Z.of_nat (length (List.filter (selects (buildQuery env filter))
                                (log_entries w))) + 1 /\
    (filter_Page filter <= 1 ->
     total <= effective_pageSize filter ->
     In (ingested env entry w) entries).
Proof.
  intros Hf Hsel.
  pose proof (Hf 0%nat ltac:(lia)) as Hf0. rewrite Nat.add_0_r in Hf0.
  pose proof (Hf 1%nat ltac:(lia)) as Hf1.
  pose proof (Hf 2%nat ltac:(lia)) as Hf2.
  destruct (IngestSingle_eq env entry w) as (_ & Hcalls & _).
  pose proof (IngestSingle_store env entry w) as Hstore. rewrite Hf0 in Hstore.
  rewrite LogRepository_Query_success;
    [| rewrite Hcalls, length_app; exact Hf1
     | rewrite Hcalls, length_app; cbn [length];
       now replace (S (length (calls w) + 1)) with (length (calls w) + 2)%nat by lia].
  rewrite Hstore, List.filter_app. cbn [List.filter]. rewrite Hsel.
  eexists _, _. split; [reflexivity|]. split.
  - rewrite length_app. cbn [length]. lia.
  - intros Hpage Htotal.
    assert (Hp1 : effective_page filter = 1).
    { unfold effective_page. destruct (Z.ltb_spec (filter_Page filter) 1); lia. }
    rewrite Hp1. replace ((1 - 1) * effective_pageSize filter) with 0 by lia.
    change (wrap64 0) with 0. unfold sql_limit, sql_offset.
    change (Z.to_nat 0) with 0%nat. rewrite drop_0.
    pose proof (order_timestamp_desc_Permutation
                  (List.filter (selects (buildQuery env filter)) (log_entries w)
                   ++ [ingested env entry w])) as Hperm.
    rewrite take_ge.
    + apply (Permutation_in _ (Permutation_sym Hperm)).
      apply in_or_app. right. now left.
    + rewrite (Permutation_length Hperm). lia.
Qed.

Lemma ingested_entry_is_counted_and_found_witness :
  exists entries total,
    fst (LogRepository_Query Sample.env0 Sample.zero_filter
           (snd (IngestSingle Sample.env0 Sample.blank_entry
                   (Sample.with_logs Cases.three_entries))))
    = (entries, total, None) /\
    total = Z.of_nat (length (List.filter
                                (selects (buildQuery Sample.env0 Sample.zero_filter))
                                (log_entries (Sample.with_logs Cases.three_entries))))
            + 1 /\
    (filter_Page Sample.zero_filter <= 1 ->
     total <= effective_pageSize Sample.zero_filter ->
     In (ingested Sample.env0 Sample.blank_entry (Sample.with_logs Cases.three_entries))
       entries).
Proof.
  apply (ingested_entry_is_counted_and_found Sample.env0 Sample.blank_entry
           Sample.zero_filter (Sample.with_logs Cases.three_entries)).
  - intros k _. reflexivity.
  - reflexivity.
Defined.
